(** * CTP::ThreadPool: a shallow embedding of the scheduling core

    Source files covered: [thread_pool.h] (the [Priority] enumeration, the
    constructor, [Schedule]) and [thread_pool.cpp] (class [ThreadPool::impl]
    with [Init], [Shutdown] and [AddJob], and the worker lambda).

    The pool is modelled as a transition system over an explicit state; the
    function bodies are written in a small state monad in which an operation
    that cannot proceed (a taken mutex, a [join] on a running thread) has no
    result.  One step is: a whole call of [Schedule]; one statement of
    [Shutdown] (the store to [m_running], the [notify_all], one iteration of
    the loop over [m_workers]); for a worker, the loop test, one pass through
    the locked block (from taking [m_guard] to releasing it, at the end of the
    block or inside [wait]), or the test and call of the job it took; a
    spurious wake-up.  Reads and writes of [m_running], which [Shutdown]
    stores without holding [m_guard], are taken to be atomic and to fall
    between two locked blocks.

    A call of [Schedule] being one step, the instant between the release of
    [m_guard] at the end of [AddJob] and the return of the future is not a
    state of the model; a worker can run the new job in that interval, so no
    property below speaks of the readiness of a result at the moment
    [Schedule] returns.

    The constructor runs on a platform ([host]) that may refuse memory for
    [m_workers.reserve] or another thread: construction then has no result,
    as when the thread count is beyond the range of the loop counter. *)

From Stdlib Require Import ZArith Lia String.
From stdpp Require Import base option list.

Open Scope Z_scope.

(** ** thread_pool.h: [enum class Priority : size_t] *)

Inductive Priority := Normal | High | Critical.

(** The underlying [size_t] value of each enumerator. *)
Definition Priority_val (p : Priority) : Z :=
  match p with
  | Normal => 0
  | High => 1
  | Critical => 2
  end.

Definition Priority_eqb (a b : Priority) : bool :=
  Priority_val a =? Priority_val b.

(** [std::greater<Priority>], the comparator of [m_jobsByPriority]:
    [greater a b] says that key [a] is ordered before key [b]. *)
Definition greater (a b : Priority) : bool :=
  Priority_val b <? Priority_val a.

(** ** Callables, results and exceptions *)

Inductive exn :=
| bad_function_call
| promise_already_satisfied
| no_state
| user_exception (what : string).

(** What a bound user callable ([std::bind(f, args...)]) does when it is called:
    it returns a value or lets an exception escape. *)
Inductive outcome :=
| Returned (v : Z)
| Threw (e : exn).

Definition bound_call := unit -> outcome.

(** The only callable this repository ever stores in a job is the lambda of
    [Schedule], which captures the shared pointer [job] and calls the
    [std::packaged_task] it points to: [task] names the task's shared state
    and [target] is the bound callable the task wraps. *)
Inductive callable :=
| RunPackagedTask (task : nat) (target : bound_call).

(** [std::function<void()>]: [None] is the empty function ([== nullptr]). *)
Definition function_void := option callable.

(** [std::queue<std::function<void()>>]: front at the head. *)
Definition job_queue := list function_void.

(** ** [m_jobsByPriority]

    [std::map<Priority, std::queue<...>, std::greater<Priority>>]: the entries
    in iteration order, that is by strictly descending key. *)
Definition jobs_map := list (Priority * job_queue).

(** [m[p]] followed by an update [f] of the referenced queue.  [operator[]]
    inserts a default-constructed (empty) queue at the key's place when the
    key is absent. *)
Fixpoint map_at (m : jobs_map) (p : Priority) (f : job_queue -> job_queue)
  : jobs_map :=
  match m with
  | [] => [(p, f [])]
  | (k, q) :: rest =>
      if Priority_eqb k p then (k, f q) :: rest
      else if greater p k then (p, f []) :: (k, q) :: rest
      else (k, q) :: map_at rest p f
  end.

(** Reading the queue stored under a key; a key without an entry has no jobs. *)
Fixpoint queue_of (m : jobs_map) (p : Priority) : job_queue :=
  match m with
  | [] => []
  | (k, q) :: rest => if Priority_eqb k p then q else queue_of rest p
  end.

(** [std::queue::empty]. *)
Definition queue_empty (q : job_queue) : bool :=
  match q with
  | [] => true
  | _ :: _ => false
  end.

(** The loop of the wait predicate:
    [bool allQueuesEmpty = true;
     for (const auto& kvp : m_jobsByPriority) allQueuesEmpty &= kvp.second.empty();] *)
Definition allQueuesEmpty (m : jobs_map) : bool :=
  fold_left (fun acc kvp => acc && queue_empty (snd kvp)) m true.

(** The scan after the wait, started with the empty [job]:
    [for (auto& kvp : m_jobsByPriority) {
       auto& jobs = kvp.second;
       if (jobs.empty()) continue;
       job = std::move(jobs.front()); jobs.pop(); break; }]
    The result is the value of [job] after the loop and the map after it. *)
Fixpoint scan (m : jobs_map) : function_void * jobs_map :=
  match m with
  | [] => (None, [])
  | (k, jobs) :: rest =>
      match jobs with
      | [] => let '(job, rest') := scan rest in (job, (k, jobs) :: rest')
      | front :: popped => (front, (k, popped) :: rest)
      end
  end.

(** ** The state of [ThreadPool::impl] *)

(** Where a worker thread is in the lambda given to [std::thread]. *)
Inductive worker_pc :=
| AtLoopTest                     (* about to evaluate [while (m_running)] *)
| InWait                         (* [job] declared empty; entering, or inside,
                                    [m_cvSleepCtrl.wait(ul, pred)] *)
| HoldsJob (job : function_void) (* left the locked block, about to test
                                    [job != nullptr] *)
| Finished                       (* the thread function returned *)
| Terminated (e : exn).          (* an exception left the thread function *)

(** A [std::thread] of [m_workers] with the progress of the function it runs. *)
Record thread := {
  joinable : bool;
  pc : worker_pc
}.

Record impl := {
  m_running : bool;
  m_guard : bool;                (* [std::mutex]: [true] when locked *)
  m_cvSleepCtrl : list nat;      (* the workers blocked on the condition variable *)
  m_workers : list thread;
  m_jobsByPriority : jobs_map
}.

Definition set_running (b : bool) (s : impl) : impl :=
  {| m_running := b; m_guard := m_guard s; m_cvSleepCtrl := m_cvSleepCtrl s;
     m_workers := m_workers s; m_jobsByPriority := m_jobsByPriority s |}.

Definition set_guard (b : bool) (s : impl) : impl :=
  {| m_running := m_running s; m_guard := b; m_cvSleepCtrl := m_cvSleepCtrl s;
     m_workers := m_workers s; m_jobsByPriority := m_jobsByPriority s |}.

Definition set_waiters (l : list nat) (s : impl) : impl :=
  {| m_running := m_running s; m_guard := m_guard s; m_cvSleepCtrl := l;
     m_workers := m_workers s; m_jobsByPriority := m_jobsByPriority s |}.

Definition set_workers (ws : list thread) (s : impl) : impl :=
  {| m_running := m_running s; m_guard := m_guard s;
     m_cvSleepCtrl := m_cvSleepCtrl s;
     m_workers := ws; m_jobsByPriority := m_jobsByPriority s |}.

Definition set_jobs (m : jobs_map) (s : impl) : impl :=
  {| m_running := m_running s; m_guard := m_guard s;
     m_cvSleepCtrl := m_cvSleepCtrl s;
     m_workers := m_workers s; m_jobsByPriority := m |}.

(** Who performs a synchronisation operation. *)
Inductive thread_id :=
| Caller
| Worker (i : nat).

(** Synchronisation operations, in the order they happen. *)
Inductive event :=
| EvLock (who : thread_id)
| EvUnlock (who : thread_id)
| EvWaitBlock (i : nat)               (* [wait] releases the mutex and blocks *)
| EvNotifyOne (woken : option nat)
| EvNotifyAll (woken : list nat).

(** Where the thread that called [Shutdown] is in its body. *)
Inductive shutdown_pc :=
| NotInShutdown
| AtNotifyAll
| AtJoin (k : nat).

(** The pool together with what lives outside [impl]: the shared states of the
    packaged tasks handed out by [Schedule] ([None]: not ready), the progress
    of a [Shutdown] call, and the log of synchronisation events. *)
Record world := {
  pool : impl;
  shared_states : list (option outcome);
  in_shutdown : shutdown_pc;
  events : list event
}.

Definition with_pool (f : impl -> impl) (w : world) : world :=
  {| pool := f (pool w); shared_states := shared_states w;
     in_shutdown := in_shutdown w; events := events w |}.

Definition with_shared (f : list (option outcome) -> list (option outcome))
  (w : world) : world :=
  {| pool := pool w; shared_states := f (shared_states w);
     in_shutdown := in_shutdown w; events := events w |}.

Definition with_shutdown (p : shutdown_pc) (w : world) : world :=
  {| pool := pool w; shared_states := shared_states w;
     in_shutdown := p; events := events w |}.

Definition log (e : event) (w : world) : world :=
  {| pool := pool w; shared_states := shared_states w;
     in_shutdown := in_shutdown w; events := events w ++ [e] |}.

(** ** A state monad with blocking

    [None] means that the calling thread cannot proceed in this state. *)
Definition M (A : Type) : Type := world -> option (A * world).

Definition ret {A} (a : A) : M A := fun w => Some (a, w).

Definition bind {A B} (c : M A) (k : A -> M B) : M B :=
  fun w => match c w with
           | Some (a, w') => k a w'
           | None => None
           end.

Definition blocked {A} : M A := fun _ => None.

Definition gets {A} (f : world -> A) : M A := fun w => Some (f w, w).

Definition modify (f : world -> world) : M unit := fun w => Some (tt, f w).

Declare Scope pool_scope.
Delimit Scope pool_scope with pool.
Notation "x <- c ;; k" := (bind c (fun x => k))
  (at level 100, c at next level, right associativity) : pool_scope.
Notation "c ;; k" := (bind c (fun _ => k))
  (at level 100, right associativity) : pool_scope.
Open Scope pool_scope.

(** ** Primitives of the mutex and the condition variable *)

(** [std::unique_lock<std::mutex> ul(m_guard)]. *)
Definition lock (who : thread_id) : M unit :=
  held <- gets (fun w => m_guard (pool w)) ;;
  if (held : bool) then blocked
  else modify (fun w => log (EvLock who) (with_pool (set_guard true) w)).

(** The end of the scope of [ul]. *)
Definition unlock (who : thread_id) : M unit :=
  modify (fun w => log (EvUnlock who) (with_pool (set_guard false) w)).

(** [wait] when the predicate is false: the mutex is released and the worker
    is parked on the condition variable, in one atomic operation. *)
Definition wait_block (i : nat) : M unit :=
  modify (fun w =>
    log (EvWaitBlock i)
      (with_pool (fun s => set_guard false
                             (set_waiters (m_cvSleepCtrl s ++ [i]) s)) w)).

(** [m_cvSleepCtrl.notify_one()]: nothing happens without waiters, otherwise
    one of them is unblocked; which one is not specified, [pick] decides. *)
Definition notify_one (pick : nat) : M unit :=
  modify (fun w =>
    let ws := m_cvSleepCtrl (pool w) in
    let k := (pick mod length ws)%nat in
    log (EvNotifyOne (ws !! k)) (with_pool (set_waiters (delete k ws)) w)).

(** [m_cvSleepCtrl.notify_all()]. *)
Definition notify_all : M unit :=
  modify (fun w =>
    log (EvNotifyAll (m_cvSleepCtrl (pool w))) (with_pool (set_waiters []) w)).

(** ** thread_pool.cpp: the worker, [AddJob], [Shutdown], [Init] *)

(** The predicate given to [m_cvSleepCtrl.wait]:
    [if (false == m_running) return true; ... return !allQueuesEmpty;] *)
Definition wait_predicate (s : impl) : bool :=
  if negb (m_running s) then true
  else negb (allQueuesEmpty (m_jobsByPriority s)).

(** The scan over [m_jobsByPriority] as an operation on the pool. *)
Definition take_job : M function_void :=
  fun w =>
    let '(job, m') := scan (m_jobsByPriority (pool w)) in
    Some (job, with_pool (set_jobs m') w).

(** The locked block of worker [i], from taking (or re-taking) [m_guard] to
    either the end of the block ([Some job]) or to blocking in [wait] on a false
    predicate ([None]). *)
Definition locked_block (i : nat) : M (option function_void) :=
  lock (Worker i) ;;
  go <- gets (fun w => wait_predicate (pool w)) ;;
  if (go : bool) then
    job <- take_job ;;
    unlock (Worker i) ;;
    ret (Some job)
  else
    wait_block i ;;
    ret None.

(** [std::packaged_task::operator()]: the target runs, and its value or the
    exception it throws is stored in the shared state; a second call throws. *)
Definition packaged_task_call (t : nat) (f : bound_call) : M (option exn) :=
  st <- gets (fun w => shared_states w !! t) ;;
  match st with
  | None => ret (Some no_state)
  | Some (Some _) => ret (Some promise_already_satisfied)
  | Some None =>
      modify (with_shared (fun l => <[t := Some (f tt)]> l)) ;;
      ret None
  end.

(** [job()] for a [std::function<void()>]; the result is the exception that
    leaves the call, if any.  Calling an empty function throws. *)
Definition invoke (job : function_void) : M (option exn) :=
  match job with
  | None => ret (Some bad_function_call)
  | Some (RunPackagedTask t f) => packaged_task_call t f
  end.

(** The worker [i] moves on to [p]. *)
Definition put_pc (i : nat) (p : worker_pc) (s : impl) : impl :=
  set_workers
    (alter (fun th => {| joinable := joinable th; pc := p |}) i (m_workers s)) s.

Definition set_pc (i : nat) (p : worker_pc) : M unit :=
  modify (with_pool (put_pc i p)).

(** [worker.join()] has returned for the thread at index [k]. *)
Definition put_joined (k : nat) (s : impl) : impl :=
  set_workers
    (alter (fun th => {| joinable := false; pc := pc th |}) k (m_workers s)) s.

(** One step of worker [i]. *)
Definition worker_step (i : nat) : M unit :=
  th <- gets (fun w => m_workers (pool w) !! i) ;;
  match th with
  | None => blocked
  | Some th =>
      match pc th with
      | AtLoopTest =>
          (* while (m_running) *)
          running <- gets (fun w => m_running (pool w)) ;;
          set_pc i (if (running : bool) then InWait else Finished)
      | InWait =>
          parked <- gets (fun w => bool_decide (i ∈ m_cvSleepCtrl (pool w))) ;;
          if (parked : bool) then blocked
          else
            r <- locked_block i ;;
            match r with
            | Some job => set_pc i (HoldsJob job)
            | None => ret tt
            end
      | HoldsJob job =>
          (* if (job != nullptr) job(); *)
          match job with
          | None => set_pc i AtLoopTest
          | Some _ =>
              thrown <- invoke job ;;
              match thrown with
              | None => set_pc i AtLoopTest
              | Some e => set_pc i (Terminated e)
              end
          end
      | Finished | Terminated _ => blocked
      end
  end.

(** A spurious wake-up of worker [i], which the condition variable allows. *)
Definition spurious_wakeup (i : nat) : M unit :=
  parked <- gets (fun w => bool_decide (i ∈ m_cvSleepCtrl (pool w))) ;;
  if (parked : bool) then
    modify (with_pool (fun s =>
      set_waiters (filter (fun j => j ≠ i) (m_cvSleepCtrl s)) s))
  else blocked.

(** [ThreadPool::impl::AddJob]; the lock [ul] lives until the function
    returns. *)
Definition AddJob (job : function_void) (priority : Priority) (pick : nat)
  : M unit :=
  lock Caller ;;
  modify (with_pool (fun s =>
    set_jobs (map_at (m_jobsByPriority s) priority (fun q => q ++ [job])) s)) ;;
  notify_one pick ;;
  unlock Caller.

(** [ThreadPool::Schedule(priority, f, args...)]: a packaged task around the
    bound callable, the job that calls it, and the future of the task.  The
    source releases [m_guard] when [AddJob] returns and only then takes the
    future; the two are one step here. *)
Definition Schedule (priority : Priority) (f : bound_call) (pick : nat)
  : M nat :=
  t <- gets (fun w => length (shared_states w)) ;;
  modify (with_shared (fun l => l ++ [None])) ;;
  AddJob (Some (RunPackagedTask t f)) priority pick ;;
  ret t.

(** [ThreadPool::Schedule(f, args...)]: the default priority. *)
Definition Schedule_default (f : bound_call) (pick : nat) : M nat :=
  Schedule Normal f pick.

(** What the holder of the future of task [t] observes: [None] while the
    result is not ready. *)
Definition future_result (w : world) (t : nat) : option outcome :=
  match shared_states w !! t with
  | Some r => r
  | None => None
  end.

(** One step of [ThreadPool::impl::Shutdown]: the store to [m_running], the
    [notify_all], and then one iteration of the loop over [m_workers] per
    step; [join] blocks until the thread function has returned. *)
Definition Shutdown_step : M unit :=
  at_pc <- gets in_shutdown ;;
  match at_pc with
  | NotInShutdown =>
      modify (with_pool (set_running false)) ;;
      modify (with_shutdown AtNotifyAll)
  | AtNotifyAll =>
      notify_all ;;
      modify (with_shutdown (AtJoin 0))
  | AtJoin k =>
      th <- gets (fun w => m_workers (pool w) !! k) ;;
      match th with
      | None => modify (with_shutdown NotInShutdown)
      | Some th =>
          if joinable th then
            match pc th with
            | Finished =>
                modify (with_pool (put_joined k)) ;;
                modify (with_shutdown (AtJoin (S k)))
            | _ => blocked
            end
          else modify (with_shutdown (AtJoin (S k)))
      end
  end.

(** [INT_MAX] for the 32-bit [int] loop counter of [Init]. *)
Definition INT_MAX : N := 2147483647.

(** What the platform reports and grants when a pool is constructed:
    the value of [std::thread::hardware_concurrency()], the number of threads
    it still lets the process start (the constructor of [std::thread] throws
    [std::system_error] for the next one), and the largest capacity it lets
    [m_workers.reserve] allocate ([reserve] throws beyond it). *)
Record host := {
  hardware_concurrency : N;
  threads_available : N;
  reserve_available : N
}.

(** [m_workers.push_back(std::thread(...))], [k] more times, with [available]
    threads left to start: [None] when the constructor of [std::thread]
    throws. *)
Fixpoint spawn (k : nat) (available : nat) (ws : list thread)
  : option (list thread) :=
  match k with
  | O => Some ws
  | S k' =>
      match available with
      | O => None
      | S available' =>
          spawn k' available' (ws ++ [{| joinable := true; pc := AtLoopTest |}])
      end
  end.

(** [ThreadPool::impl::Init].  The loop [for (int i = 0; i < threadCount; i++)]
    runs its body [threadCount] times.  The call does not return, and there is
    no pool, when [m_workers.reserve(threadCount)] throws, when the
    constructor of a [std::thread] throws (the exception leaves [Init] and the
    constructor of the pool; the unwinding destroys the threads started so
    far, which terminates the process), or when [threadCount] is beyond
    [INT_MAX], where the increment of [i] overflows. *)
Definition Init (threadCount : N) (h : host) (s : impl) : option impl :=
  let m0 := map_at (m_jobsByPriority s) Normal (fun _ => []) in
  let m1 := map_at m0 High (fun _ => []) in
  let m2 := map_at m1 Critical (fun _ => []) in
  if (threadCount <=? reserve_available h)%N then
    if (threadCount <=? INT_MAX)%N then
      match spawn (N.to_nat threadCount) (N.to_nat (threads_available h))
              (m_workers s) with
      | Some ws => Some (set_workers ws (set_jobs m2 s))
      | None => None
      end
    else None
  else None.

(** A default-initialised [impl]: [bool m_running = true]. *)
Definition new_impl : impl :=
  {| m_running := true; m_guard := false; m_cvSleepCtrl := [];
     m_workers := []; m_jobsByPriority := [] |}.

(** [ThreadPool::ThreadPool(size_t threadCount = std::thread::hardware_concurrency())]:
    [arg] is the argument when one is given, [h] the platform the pool is
    constructed on. *)
Definition ThreadPool (arg : option N) (h : host) : option world :=
  let threadCount := match arg with
                     | Some n => n
                     | None => hardware_concurrency h
                     end in
  match Init threadCount h new_impl with
  | Some s => Some {| pool := s; shared_states := [];
                      in_shutdown := NotInShutdown; events := [] |}
  | None => None
  end.

(** ** Interleavings *)

Inductive action :=
| CallSchedule (priority : Priority) (f : bound_call) (pick : nat)
| StepShutdown
| StepWorker (i : nat)
| SpuriousWakeup (i : nat).

Definition step (a : action) (w : world) : option world :=
  match a with
  | CallSchedule priority f pick => snd <$> Schedule priority f pick w
  | StepShutdown => snd <$> Shutdown_step w
  | StepWorker i => snd <$> worker_step i w
  | SpuriousWakeup i => snd <$> spurious_wakeup i w
  end.

Fixpoint run (sched : list action) (w : world) : option world :=
  match sched with
  | [] => Some w
  | a :: rest =>
      match step a w with
      | Some w' => run rest w'
      | None => None
      end
  end.

(** A whole [Shutdown] call by a thread that is never overtaken: the two
    first statements, one loop iteration per worker, and the return. *)
Definition Shutdown (w : world) : option world :=
  run (replicate (length (m_workers (pool w)) + 3) StepShutdown) w.

(** ** Notions used to state the properties *)

(** The map with its three queues. *)
Definition three_queues (qc qh qn : job_queue) : jobs_map :=
  [(Critical, qc); (High, qh); (Normal, qn)].

(** The jobs that [n] scans in a row take out of a map. *)
Fixpoint scans (n : nat) (m : jobs_map) : list function_void :=
  match n with
  | O => []
  | S n' => let '(job, m') := scan m in job :: scans n' m'
  end.

(** Worker [i] exists and is at [p]. *)
Definition worker_at (w : world) (i : nat) (p : worker_pc) : Prop :=
  exists th, m_workers (pool w) !! i = Some th /\ pc th = p.

(** A world from its four parts. *)
Definition mk_world (s : impl) (sh : list (option outcome)) (sd : shutdown_pc)
  (ev : list event) : world :=
  {| pool := s; shared_states := sh; in_shutdown := sd; events := ev |}.

(** [moves a w w'] lists what [step a] does from a world whose mutex is free,
    one constructor per path through the code: [Schedule]; the five places
    of [Shutdown] (the store to [m_running], [notify_all], a [join], a thread
    that is not joinable, the return); the worker at the loop test, passing
    the wait with a true predicate, parking on a false one, skipping an empty
    job, and calling a job that returns or throws; a spurious wake-up. *)
Inductive moves : action -> world -> world -> Prop :=
| mv_schedule w priority f pick :
    let t := length (shared_states w) in
    let k := (pick mod length (m_cvSleepCtrl (pool w)))%nat in
    moves (CallSchedule priority f pick) w
      (mk_world
         (set_waiters (delete k (m_cvSleepCtrl (pool w)))
            (set_jobs (map_at (m_jobsByPriority (pool w)) priority
                         (fun q => q ++ [Some (RunPackagedTask t f)]))
               (pool w)))
         (shared_states w ++ [None])
         (in_shutdown w)
         (events w ++ [EvLock Caller;
                       EvNotifyOne (m_cvSleepCtrl (pool w) !! k);
                       EvUnlock Caller]))
| mv_shutdown_flag w :
    in_shutdown w = NotInShutdown ->
    moves StepShutdown w
      (mk_world (set_running false (pool w)) (shared_states w) AtNotifyAll
         (events w))
| mv_shutdown_notify w :
    in_shutdown w = AtNotifyAll ->
    moves StepShutdown w
      (mk_world (set_waiters [] (pool w)) (shared_states w) (AtJoin 0)
         (events w ++ [EvNotifyAll (m_cvSleepCtrl (pool w))]))
| mv_shutdown_join w k th :
    in_shutdown w = AtJoin k ->
    m_workers (pool w) !! k = Some th ->
    joinable th = true ->
    pc th = Finished ->
    moves StepShutdown w
      (mk_world (put_joined k (pool w)) (shared_states w) (AtJoin (S k))
         (events w))
| mv_shutdown_skip w k th :
    in_shutdown w = AtJoin k ->
    m_workers (pool w) !! k = Some th ->
    joinable th = false ->
    moves StepShutdown w
      (mk_world (pool w) (shared_states w) (AtJoin (S k)) (events w))
| mv_shutdown_return w k :
    in_shutdown w = AtJoin k ->
    m_workers (pool w) !! k = None ->
    moves StepShutdown w
      (mk_world (pool w) (shared_states w) NotInShutdown (events w))
| mv_loop_test w i th :
    m_workers (pool w) !! i = Some th ->
    pc th = AtLoopTest ->
    moves (StepWorker i) w
      (mk_world
         (put_pc i (if m_running (pool w) then InWait else Finished) (pool w))
         (shared_states w) (in_shutdown w) (events w))
| mv_take w i th :
    m_workers (pool w) !! i = Some th ->
    pc th = InWait ->
    i ∉ m_cvSleepCtrl (pool w) ->
    wait_predicate (pool w) = true ->
    moves (StepWorker i) w
      (mk_world
         (put_pc i (HoldsJob (scan (m_jobsByPriority (pool w))).1)
            (set_jobs (scan (m_jobsByPriority (pool w))).2 (pool w)))
         (shared_states w) (in_shutdown w)
         (events w ++ [EvLock (Worker i); EvUnlock (Worker i)]))
| mv_park w i th :
    m_workers (pool w) !! i = Some th ->
    pc th = InWait ->
    i ∉ m_cvSleepCtrl (pool w) ->
    wait_predicate (pool w) = false ->
    moves (StepWorker i) w
      (mk_world
         (set_waiters (m_cvSleepCtrl (pool w) ++ [i]) (pool w))
         (shared_states w) (in_shutdown w)
         (events w ++ [EvLock (Worker i); EvWaitBlock i]))
| mv_no_job w i th :
    m_workers (pool w) !! i = Some th ->
    pc th = HoldsJob None ->
    moves (StepWorker i) w
      (mk_world (put_pc i AtLoopTest (pool w))
         (shared_states w) (in_shutdown w) (events w))
| mv_job_done w i th t f :
    m_workers (pool w) !! i = Some th ->
    pc th = HoldsJob (Some (RunPackagedTask t f)) ->
    shared_states w !! t = Some None ->
    moves (StepWorker i) w
      (mk_world (put_pc i AtLoopTest (pool w))
         (<[t := Some (f tt)]> (shared_states w)) (in_shutdown w) (events w))
| mv_job_throws w i th t f e :
    m_workers (pool w) !! i = Some th ->
    pc th = HoldsJob (Some (RunPackagedTask t f)) ->
    (shared_states w !! t = None /\ e = no_state) \/
    ((exists o, shared_states w !! t = Some (Some o)) /\
     e = promise_already_satisfied) ->
    moves (StepWorker i) w
      (mk_world (put_pc i (Terminated e) (pool w))
         (shared_states w) (in_shutdown w) (events w))
| mv_spurious w i :
    i ∈ m_cvSleepCtrl (pool w) ->
    moves (SpuriousWakeup i) w
      (mk_world
         (set_waiters (filter (fun j => j ≠ i) (m_cvSleepCtrl (pool w)))
            (pool w))
         (shared_states w) (in_shutdown w) (events w)).

(** The map holds one queue for each priority and nothing else. *)
Definition has_three_queues (s : impl) : Prop :=
  exists qc qh qn, m_jobsByPriority s = three_queues qc qh qn.

(** A thread as [Init] starts it. *)
Definition fresh_thread : thread := {| joinable := true; pc := AtLoopTest |}.

(** The number of threads the constructor is asked for. *)
Definition requested (arg : option N) (h : host) : N :=
  match arg with
  | Some n => n
  | None => hardware_concurrency h
  end.

(** A platform that reports [cores] hardware threads and grants a thousand
    threads and as large a reserve. *)
Definition host_with (cores : N) : host :=
  {| hardware_concurrency := cores;
     threads_available := 1000;
     reserve_available := 1000 |}.

(** A pool whose single worker is parked on the condition variable. *)
Definition one_parked_worker : world :=
  mk_world
    {| m_running := true; m_guard := false; m_cvSleepCtrl := [0%nat];
       m_workers := [{| joinable := true; pc := InWait |}];
       m_jobsByPriority := three_queues [] [] [] |}
    [None] NotInShutdown [].

(** A pool with two parked workers and one High job queued. *)
Definition two_parked_workers : world :=
  mk_world
    {| m_running := true; m_guard := false; m_cvSleepCtrl := [1%nat; 0%nat];
       m_workers := [{| joinable := true; pc := InWait |};
                     {| joinable := true; pc := InWait |}];
       m_jobsByPriority :=
         three_queues [] [Some (RunPackagedTask 0 (fun _ => Returned 1))] [] |}
    [None; None] NotInShutdown [].

(** Only workers inside [wait] are parked on the condition variable. *)
Definition parked_are_waiting (s : impl) : Prop :=
  forall i, i ∈ m_cvSleepCtrl s ->
    exists th, m_workers s !! i = Some th /\ pc th = InWait.

(** A thread that is no longer joinable has been joined after it finished. *)
Definition joined_are_finished (s : impl) : Prop :=
  forall i th, m_workers s !! i = Some th -> joinable th = false ->
    pc th = Finished.

(** What a [Shutdown] call has achieved at each point of its body. *)
Definition shutdown_progress (w : world) : Prop :=
  match in_shutdown w with
  | NotInShutdown => True
  | AtNotifyAll => m_running (pool w) = false
  | AtJoin k =>
      m_running (pool w) = false /\
      forall i th, (i < k)%nat -> m_workers (pool w) !! i = Some th ->
        joinable th = false
  end.

(** Between two steps the mutex is free, and the three facts above hold. *)
Definition consistent (w : world) : Prop :=
  m_guard (pool w) = false /\
  parked_are_waiting (pool w) /\
  joined_are_finished (pool w) /\
  shutdown_progress w.

(** The state a completed [Shutdown] leaves behind. *)
Definition all_joined (w : world) : Prop :=
  in_shutdown w = NotInShutdown /\
  m_running (pool w) = false /\
  m_cvSleepCtrl (pool w) = [] /\
  forall i th, m_workers (pool w) !! i = Some th ->
    joinable th = false /\ pc th = Finished.

(** A worker woken by [Shutdown] with nothing queued. *)
Definition woken_by_shutdown : world :=
  mk_world
    {| m_running := false; m_guard := false; m_cvSleepCtrl := [];
       m_workers := [{| joinable := true; pc := InWait |}];
       m_jobsByPriority := three_queues [] [] [] |}
    [] (AtJoin 0) [EvLock (Worker 0); EvWaitBlock 0; EvNotifyAll [0%nat]].

(** The packaged task a job calls. *)
Definition task_of (job : function_void) : list nat :=
  match job with
  | Some (RunPackagedTask t _) => [t]
  | None => []
  end.

(** The task of the job a worker at [p] has taken and not yet run. *)
Definition held_by (p : worker_pc) : list nat :=
  match p with
  | HoldsJob job => task_of job
  | _ => []
  end.

(** The tasks of the queued jobs, in the order of the scan. *)
Definition queued_tasks (m : jobs_map) : list nat :=
  m ≫= (fun kvp => kvp.2 ≫= task_of).

(** The tasks of the jobs in the hands of the workers. *)
Definition held_tasks (ws : list thread) : list nat :=
  ws ≫= (fun th => held_by (pc th)).

(** The tasks of the jobs that are queued or in the hands of a worker. *)
Definition pending_tasks (s : impl) : list nat :=
  queued_tasks (m_jobsByPriority s) ++ held_tasks (m_workers s).

(** No task is pending twice, and no pending task has a result yet. *)
Definition pending_once (w : world) : Prop :=
  NoDup (pending_tasks (pool w)) /\
  forall t, t ∈ pending_tasks (pool w) -> shared_states w !! t = Some None.

(** No exception has left a thread function. *)
Definition none_terminated (s : impl) : Prop :=
  forall i th e, m_workers s !! i = Some th -> pc th <> Terminated e.

(** What every step keeps, taken together. *)
Definition sound (w : world) : Prop :=
  consistent w /\ pending_once w /\ none_terminated (pool w).

(** ** Notions used for the properties of whole runs *)

(** How many packaged tasks have their result. *)
Fixpoint completed (sh : list (option outcome)) : nat :=
  match sh with
  | [] => O
  | Some _ :: rest => S (completed rest)
  | None :: rest => completed rest
  end.

(** What a worker at [p] may still add to the completed tasks once
    [m_running] is false: it is in the wait, where its scan may take a job, or
    it holds a job it has not run. *)
Definition owes (p : worker_pc) : nat :=
  match p with
  | InWait => 1
  | HoldsJob (Some _) => 1
  | _ => 0
  end.

Definition owed (ws : list thread) : nat :=
  sum_list_with (fun th => owes (pc th)) ws.

(** The thread function of every worker has returned. *)
Definition all_finished (s : impl) : Prop :=
  forall i th, m_workers s !! i = Some th -> pc th = Finished.

(** Some worker is not parked on the condition variable. *)
Definition some_awake (s : impl) : Prop :=
  exists i, (i < length (m_workers s))%nat /\ i ∉ m_cvSleepCtrl s.

(** What can still happen once every thread function has returned:
    submissions extend the queues and add tasks without result; nothing else
    changes in the queues or the results. *)
Definition only_submissions (w w' : world) : Prop :=
  all_finished (pool w') /\
  (exists k, shared_states w' = shared_states w ++ replicate k None) /\
  forall qc qh qn,
    m_jobsByPriority (pool w) = three_queues qc qh qn ->
    exists ac ah an,
      m_jobsByPriority (pool w')
      = three_queues (qc ++ ac) (qh ++ ah) (qn ++ an).

(** No worker is parked twice; a queued job finds some worker that is not
    parked; and as long as [m_running] is true no thread function has
    returned. *)
Definition wakeful (s : impl) : Prop :=
  NoDup (m_cvSleepCtrl s) /\
  (allQueuesEmpty (m_jobsByPriority s) = false -> m_workers s <> [] ->
   some_awake s) /\
  (m_running s = true ->
   forall i th, m_workers s !! i = Some th -> pc th <> Finished).



(** One turn of the loop of worker [i]: the loop test, the locked block, and
    the test and call of the job. *)
Definition loop_turn (i : nat) : list action :=
  [StepWorker i; StepWorker i; StepWorker i].

(** [n] turns in a row. *)
Fixpoint loop_turns (n : nat) (i : nat) : list action :=
  match n with
  | O => []
  | S n' => loop_turn i ++ loop_turns n' i
  end.

(** * Properties *)

(** ** The wait predicate and the scan as functions of the map *)

Lemma allQueuesEmpty_from (m : jobs_map) (acc : bool) :
  fold_left (fun acc kvp => acc && queue_empty (snd kvp)) m acc
  = acc && allQueuesEmpty m.
Proof.
  unfold allQueuesEmpty. revert acc.
  induction m as [|[k q] m IH]; intros acc; simpl.
  - by rewrite andb_true_r.
  - rewrite IH, (IH (queue_empty q)). by rewrite andb_assoc.
Qed.

Lemma allQueuesEmpty_cons k q (m : jobs_map) :
  allQueuesEmpty ((k, q) :: m) = queue_empty q && allQueuesEmpty m.
Proof. unfold allQueuesEmpty at 1. simpl. apply allQueuesEmpty_from. Qed.

Lemma queue_empty_true (q : job_queue) : queue_empty q = true <-> q = [].
Proof. destruct q; simpl; split; congruence. Qed.

Lemma allQueuesEmpty_true (m : jobs_map) :
  allQueuesEmpty m = true <-> forall p q, (p, q) ∈ m -> q = [].
Proof.
  induction m as [|[k q] m IH].
  - split; [intros _ p q H; inversion H | reflexivity].
  - rewrite allQueuesEmpty_cons, andb_true_iff, queue_empty_true, IH.
    split.
    + intros [Hq Hm] p' q' Hin. apply elem_of_cons in Hin as [Heq|Hin].
      * congruence.
      * eauto.
    + intros H. split.
      * apply (H k). left.
      * intros p' q' Hin. apply (H p'). by right.
Qed.

Lemma allQueuesEmpty_false (m : jobs_map) :
  allQueuesEmpty m = false <-> exists p q, (p, q) ∈ m /\ q <> [].
Proof.
  induction m as [|[k q] m IH].
  - split; [discriminate | intros (p & q & H & _); inversion H].
  - rewrite allQueuesEmpty_cons, andb_false_iff, IH. split.
    + intros [Hq | (p & q' & Hin & Hne)].
      * exists k, q. split; [left | ]. destruct q; [discriminate | done].
      * exists p, q'. split; [by right | done].
    + intros (p & q' & Hin & Hne). apply elem_of_cons in Hin as [Heq|Hin].
      * left. injection Heq as -> ->. by destruct q.
      * right. eauto.
Qed.

(** Nothing to take: the scan leaves [job] empty and the map as it was. *)
Lemma scan_all_empty (m : jobs_map) :
  allQueuesEmpty m = true -> scan m = (None, m).
Proof.
  induction m as [|[k q] m IH]; [reflexivity|].
  rewrite allQueuesEmpty_cons, andb_true_iff, queue_empty_true.
  intros [-> Hm]. simpl. by rewrite (IH Hm).
Qed.

(** The scan never changes which keys the map has. *)
Lemma scan_keys (m : jobs_map) : (scan m).2.*1 = m.*1.
Proof.
  induction m as [|[k q] m IH]; [reflexivity|].
  simpl. destruct q as [|front popped]; [|reflexivity].
  destruct (scan m) as [job rest'] eqn:E. simpl in *. by f_equal.
Qed.

Lemma scan_three_queues qc qh qn :
  scan (three_queues qc qh qn) =
  match qc, qh, qn with
  | j :: r, _, _ => (j, three_queues r qh qn)
  | [], j :: r, _ => (j, three_queues [] r qn)
  | [], [], j :: r => (j, three_queues [] [] r)
  | [], [], [] => (None, three_queues [] [] [])
  end.
Proof. by destruct qc, qh, qn. Qed.

Lemma scans_three_queues qc qh qn :
  scans (length qc + length qh + length qn) (three_queues qc qh qn)
  = qc ++ qh ++ qn.
Proof.
  induction qc as [|j qc IH]; simpl.
  - induction qh as [|j qh IHh]; simpl.
    + induction qn as [|j qn IHn]; simpl; [reflexivity|].
      f_equal. apply IHn.
    + f_equal. apply IHh.
  - unfold three_queues in *. simpl. f_equal. apply IH.
Qed.


(** ** The worker's pass through the locked block *)

Lemma put_pc_lookup i p s th :
  m_workers s !! i = Some th ->
  m_workers (put_pc i p s) !! i = Some {| joinable := joinable th; pc := p |}.
Proof.
  intros H. unfold put_pc. simpl. rewrite list_lookup_alter_eq, H. reflexivity.
Qed.

(** The step of a worker that enters the locked block with a true predicate. *)
Lemma worker_step_take (w : world) (i : nat) (th : thread) :
  m_guard (pool w) = false ->
  m_workers (pool w) !! i = Some th ->
  pc th = InWait ->
  i ∉ m_cvSleepCtrl (pool w) ->
  wait_predicate (pool w) = true ->
  worker_step i w =
  Some (tt,
        {| pool := put_pc i (HoldsJob (scan (m_jobsByPriority (pool w))).1)
                     (set_jobs (scan (m_jobsByPriority (pool w))).2 (pool w));
           shared_states := shared_states w;
           in_shutdown := in_shutdown w;
           events := events w ++ [EvLock (Worker i); EvUnlock (Worker i)] |}).
Proof.
  intros Hg Hth Hpc Hpark Hpred.
  unfold worker_step, bind, gets. rewrite Hth, Hpc.
  rewrite (bool_decide_eq_false_2 _ Hpark).
  unfold locked_block, lock, bind, gets. rewrite Hg. simpl.
  unfold wait_predicate in *. simpl. rewrite Hpred.
  unfold take_job. simpl.
  destruct (scan (m_jobsByPriority (pool w))) as [job m'] eqn:E. simpl.
  destruct w as [[r g c ws m] sh sd ev]; simpl in *. subst g.
  unfold with_pool, put_pc, set_workers, set_jobs, set_guard, log; simpl.
  by rewrite <- app_assoc.
Qed.

(** The step of a worker whose predicate is false: it parks in [wait]. *)
Lemma worker_step_park (w : world) (i : nat) (th : thread) :
  m_guard (pool w) = false ->
  m_workers (pool w) !! i = Some th ->
  pc th = InWait ->
  i ∉ m_cvSleepCtrl (pool w) ->
  wait_predicate (pool w) = false ->
  worker_step i w =
  Some (tt,
        {| pool := set_waiters (m_cvSleepCtrl (pool w) ++ [i]) (pool w);
           shared_states := shared_states w;
           in_shutdown := in_shutdown w;
           events := events w ++ [EvLock (Worker i); EvWaitBlock i] |}).
Proof.
  intros Hg Hth Hpc Hpark Hpred.
  unfold worker_step, bind, gets. rewrite Hth, Hpc.
  rewrite (bool_decide_eq_false_2 _ Hpark).
  unfold locked_block, lock, bind, gets. rewrite Hg. simpl.
  unfold wait_predicate in *. simpl. rewrite Hpred.
  destruct w as [[r g c ws m] sh sd ev]; simpl in *. subst g.
  unfold with_pool, set_waiters, set_guard, log; simpl.
  by rewrite <- app_assoc.
Qed.

(** Claim C4.  The predicate of the worker's wait is true exactly when
    [m_running] is false or some queue of [m_jobsByPriority] is non-empty, and
    false exactly when [m_running] is true and every queue is empty.  A worker
    that enters the wait evaluates it after taking [m_guard], and is parked on
    the condition variable afterwards exactly when [m_running] is true and
    every queue is empty. *)
Theorem wait_predicate_iff (s : impl) :
  (wait_predicate s = true <->
     m_running s = false \/
     exists p q, (p, q) ∈ m_jobsByPriority s /\ q <> [])
  /\
  (wait_predicate s = false <->
     m_running s = true /\
     forall p q, (p, q) ∈ m_jobsByPriority s -> q = [])
  /\
  (forall w i th,
     pool w = s ->
     m_guard s = false ->
     m_workers s !! i = Some th ->
     pc th = InWait ->
     i ∉ m_cvSleepCtrl s ->
     exists w' e,
       worker_step i w = Some (tt, w') /\
       events w' = events w ++ [EvLock (Worker i); e] /\
       (i ∈ m_cvSleepCtrl (pool w') <->
          m_running s = true /\
          forall p q, (p, q) ∈ m_jobsByPriority s -> q = [])).
Proof.
  assert (wait_predicate s = false <->
          m_running s = true /\
          forall p q, (p, q) ∈ m_jobsByPriority s -> q = []) as Hfalse.
  { unfold wait_predicate. destruct (m_running s); simpl.
    - rewrite negb_false_iff, allQueuesEmpty_true.
      split; [done | by intros [_ ?]].
    - split; [discriminate | by intros [? _]]. }
  split; [|split; [exact Hfalse|]].
  - unfold wait_predicate. destruct (m_running s); simpl.
    + rewrite negb_true_iff, allQueuesEmpty_false.
      split; [by right | intros [?|?]; [discriminate | done]].
    + split; [by left | done].
  - intros w i th <- Hg Hth Hpc Hpark.
    destruct (wait_predicate (pool w)) eqn:Hpred.
    + eexists _, _.
      split; [by apply (worker_step_take w i th)|]. simpl.
      split; [reflexivity|]. rewrite <- Hfalse.
      split; [intros Hin; by destruct Hpark | discriminate].
    + eexists _, _.
      split; [by apply (worker_step_park w i th)|]. simpl.
      split; [reflexivity|]. rewrite <- Hfalse.
      split; [done|]. intros _. rewrite elem_of_app. right. left.
Qed.

(** An instance: a worker that enters the wait on an idle, running pool is
    parked. *)
Lemma wait_predicate_iff_witness :
  exists w',
    worker_step 0
      (mk_world
         {| m_running := true; m_guard := false; m_cvSleepCtrl := [];
            m_workers := [{| joinable := true; pc := InWait |}];
            m_jobsByPriority := three_queues [] [] [] |}
         [] NotInShutdown []) = Some (tt, w') /\
    0%nat ∈ m_cvSleepCtrl (pool w').
Proof.
  destruct (wait_predicate_iff
              {| m_running := true; m_guard := false; m_cvSleepCtrl := [];
                 m_workers := [{| joinable := true; pc := InWait |}];
                 m_jobsByPriority := three_queues [] [] [] |})
    as (_ & Hfalse & Hworker).
  destruct (Hworker
              (mk_world
                 {| m_running := true; m_guard := false; m_cvSleepCtrl := [];
                    m_workers := [{| joinable := true; pc := InWait |}];
                    m_jobsByPriority := three_queues [] [] [] |}
                 [] NotInShutdown [])
              0%nat {| joinable := true; pc := InWait |}
              eq_refl eq_refl eq_refl eq_refl (not_elem_of_nil 0%nat))
    as (w' & e & Hstep & _ & Hparked).
  exists w'. split; [exact Hstep|].
  apply Hparked, Hfalse. reflexivity.
Defined.

Lemma wait_predicate_work (s : impl) p q :
  (p, q) ∈ m_jobsByPriority s -> q <> [] -> wait_predicate s = true.
Proof.
  intros Hin Hne. unfold wait_predicate.
  destruct (m_running s); simpl; [|reflexivity].
  apply negb_true_iff, allQueuesEmpty_false. eauto.
Qed.

Lemma wait_predicate_three (s : impl) qc qh qn :
  m_jobsByPriority s = three_queues qc qh qn ->
  qc <> [] \/ qh <> [] \/ qn <> [] ->
  wait_predicate s = true.
Proof.
  intros Hm [H | [H | H]].
  - apply (wait_predicate_work s Critical qc); [|done].
    rewrite Hm. unfold three_queues. rewrite !elem_of_cons. auto.
  - apply (wait_predicate_work s High qh); [|done].
    rewrite Hm. unfold three_queues. rewrite !elem_of_cons. auto.
  - apply (wait_predicate_work s Normal qn); [|done].
    rewrite Hm. unfold three_queues. rewrite !elem_of_cons. auto.
Qed.

(** Claim C1.  A worker that enters the locked block while some queue holds a
    job takes, under [m_guard], the front job of the first non-empty queue in
    the order Critical, High, Normal, and pops it from that queue; the other
    queues are untouched.  Scans in a row therefore take the jobs out in the
    order Critical queue, High queue, Normal queue, each queue front to back
    (the order of submission: of two jobs added at one priority the first is
    nearer the front). *)
Theorem worker_scan_takes_highest_front
  (w : world) (i : nat) (th : thread) (qc qh qn : job_queue) :
  m_guard (pool w) = false ->
  m_workers (pool w) !! i = Some th ->
  pc th = InWait ->
  i ∉ m_cvSleepCtrl (pool w) ->
  m_jobsByPriority (pool w) = three_queues qc qh qn ->
  qc <> [] \/ qh <> [] \/ qn <> [] ->
  exists job m' w',
    ((exists r, qc = job :: r /\ m' = three_queues r qh qn) \/
     (exists r, qc = [] /\ qh = job :: r /\ m' = three_queues [] r qn) \/
     (exists r, qc = [] /\ qh = [] /\ qn = job :: r /\
                m' = three_queues [] [] r)) /\
    worker_step i w = Some (tt, w') /\
    m_jobsByPriority (pool w') = m' /\
    m_workers (pool w') !! i =
      Some {| joinable := joinable th; pc := HoldsJob job |} /\
    events w' = events w ++ [EvLock (Worker i); EvUnlock (Worker i)] /\
    scans (length qc + length qh + length qn) (three_queues qc qh qn)
      = qc ++ qh ++ qn /\
    (forall p j1 j2,
       queue_of (map_at (map_at (three_queues qc qh qn) p
                           (fun q => q ++ [j1])) p (fun q => q ++ [j2])) p
       = queue_of (three_queues qc qh qn) p ++ [j1; j2]).
Proof.
  intros Hg Hth Hpc Hpark Hm Hne.
  pose proof (wait_predicate_three _ _ _ _ Hm Hne) as Hpred.
  pose proof (worker_step_take w i th Hg Hth Hpc Hpark Hpred) as Hstep.
  rewrite Hm in Hstep.
  exists (scan (three_queues qc qh qn)).1, (scan (three_queues qc qh qn)).2.
  eexists. split; [|split; [exact Hstep|]].
  - rewrite scan_three_queues.
    destruct qc as [|jc rc]; [|left; by eexists].
    destruct qh as [|jh rh]; [|right; left; by eexists].
    destruct qn as [|jn rn]; [|right; right; by eexists].
    destruct Hne as [?|[?|?]]; done.
  - simpl. split; [done|]. split; [|split; [done|]].
    + rewrite list_lookup_alter_eq. simpl. by rewrite Hth.
    + split; [apply scans_three_queues|].
      intros p j1 j2. destruct p; simpl; by rewrite <- app_assoc.
Qed.

Lemma worker_scan_takes_highest_front_witness :
  exists w : world,
    ThreadPool (Some 1%N) (host_with 4) = Some w /\
    exists w1 : world,
      run [StepWorker 0; CallSchedule Normal (fun _ => Returned 1) 0;
           CallSchedule Critical (fun _ => Returned 2) 0;
           CallSchedule Normal (fun _ => Returned 3) 0] w = Some w1 /\
      exists job m' w',
        worker_step 0 w1 = Some (tt, w') /\
        job = Some (RunPackagedTask 1 (fun _ => Returned 2)) /\
        m_jobsByPriority (pool w') = m' /\
        m_workers (pool w') !! 0%nat =
          Some {| joinable := true; pc := HoldsJob job |}.
Proof.
  eexists. split; [vm_compute; reflexivity|].
  eexists. split; [vm_compute; reflexivity|].
  destruct (worker_scan_takes_highest_front
              {| pool :=
                   {| m_running := true; m_guard := false; m_cvSleepCtrl := [];
                      m_workers := [{| joinable := true; pc := InWait |}];
                      m_jobsByPriority :=
                        three_queues
                          [Some (RunPackagedTask 1 (fun _ => Returned 2))] []
                          [Some (RunPackagedTask 0 (fun _ => Returned 1));
                           Some (RunPackagedTask 2 (fun _ => Returned 3))] |};
                 shared_states := [None; None; None];
                 in_shutdown := NotInShutdown;
                 events := [EvLock Caller; EvNotifyOne None; EvUnlock Caller;
                            EvLock Caller; EvNotifyOne None; EvUnlock Caller;
                            EvLock Caller; EvNotifyOne None; EvUnlock Caller] |}
              0%nat {| joinable := true; pc := InWait |}
              [Some (RunPackagedTask 1 (fun _ => Returned 2))] []
              [Some (RunPackagedTask 0 (fun _ => Returned 1));
               Some (RunPackagedTask 2 (fun _ => Returned 3))])
    as (job & m' & w' & Hcase & Hstep & Hm & Hth & _);
    [reflexivity | reflexivity | reflexivity | apply not_elem_of_nil
    | reflexivity | left; discriminate | ].
  exists job, m', w'. split; [exact Hstep|]. split; [|split; [exact Hm|exact Hth]].
  destruct Hcase as [(r & Hq & _) | [(r & Hq & _) | (r & Hq & _)]];
    [by injection Hq as <- _ | discriminate Hq | discriminate Hq].
Defined.

(** ** Every step is one of the moves *)

Lemma step_moves (a : action) (w w' : world) :
  m_guard (pool w) = false -> step a w = Some w' -> moves a w w'.
Proof.
  intros Hg Hstep. destruct a as [priority f pick| |i|i]; simpl in Hstep.
  - unfold Schedule, AddJob, lock, notify_one, unlock, bind, gets, modify
      in Hstep.
    simpl in Hstep. rewrite Hg in Hstep. simpl in Hstep.
    injection Hstep as <-.
    pose proof (mv_schedule w priority f pick) as Hmv. simpl in Hmv.
    destruct w as [[r g c ws m] sh sd ev]; simpl in *. subst g.
    unfold log, with_pool, mk_world, set_guard, set_waiters, set_jobs in *;
      simpl in *.
    by rewrite <- !app_assoc.
  - unfold Shutdown_step, bind, gets, modify in Hstep.
    destruct (in_shutdown w) as [| |k] eqn:Hsd; simpl in Hstep.
    + injection Hstep as <-. exact (mv_shutdown_flag w Hsd).
    + injection Hstep as <-.
      pose proof (mv_shutdown_notify w Hsd) as Hmv. by destruct w.
    + destruct (m_workers (pool w) !! k) as [th|] eqn:Hth.
      * destruct (joinable th) eqn:Hj.
        -- destruct (pc th) eqn:Hpc; try discriminate Hstep.
           injection Hstep as <-. exact (mv_shutdown_join w k th Hsd Hth Hj Hpc).
        -- injection Hstep as <-. exact (mv_shutdown_skip w k th Hsd Hth Hj).
      * injection Hstep as <-. exact (mv_shutdown_return w k Hsd Hth).
  - pose proof Hstep as Hstep0.
    unfold worker_step, bind, gets in Hstep.
    destruct (m_workers (pool w) !! i) as [th|] eqn:Hth;
      [|discriminate Hstep].
    destruct (pc th) as [| |[[t f]|]| |e] eqn:Hpc; try discriminate Hstep.
    + injection Hstep as <-. exact (mv_loop_test w i th Hth Hpc).
    + destruct (bool_decide (i ∈ m_cvSleepCtrl (pool w))) eqn:Hpark;
        [discriminate Hstep|].
      apply bool_decide_eq_false in Hpark.
      destruct (wait_predicate (pool w)) eqn:Hpred.
      * rewrite (worker_step_take w i th Hg Hth Hpc Hpark Hpred) in Hstep0.
        injection Hstep0 as <-. exact (mv_take w i th Hth Hpc Hpark Hpred).
      * rewrite (worker_step_park w i th Hg Hth Hpc Hpark Hpred) in Hstep0.
        injection Hstep0 as <-. exact (mv_park w i th Hth Hpc Hpark Hpred).
    + unfold invoke, packaged_task_call, bind, gets, modify in Hstep.
      destruct (shared_states w !! t) as [[o|]|] eqn:Ht; simpl in Hstep;
        injection Hstep as <-.
      * refine (mv_job_throws w i th t f _ Hth Hpc _). right. eauto.
      * exact (mv_job_done w i th t f Hth Hpc Ht).
      * refine (mv_job_throws w i th t f _ Hth Hpc _). left. eauto.
    + injection Hstep as <-. exact (mv_no_job w i th Hth Hpc).
  - unfold spurious_wakeup, bind, gets, modify in Hstep.
    destruct (bool_decide (i ∈ m_cvSleepCtrl (pool w))) eqn:Hpark;
      [|discriminate Hstep].
    apply bool_decide_eq_true in Hpark.
    injection Hstep as <-. exact (mv_spurious w i Hpark).
Qed.

(** ** [m_running] *)

Ltac unfold_ops :=
  unfold Schedule, AddJob, Shutdown_step, worker_step, spurious_wakeup,
    locked_block, take_job, invoke, packaged_task_call, set_pc, lock, unlock,
    wait_block, notify_one, notify_all, bind, gets, modify, ret, blocked in *.

(** A step either leaves [m_running] alone or is the first statement of
    [Shutdown], which stores [false]. *)
Lemma step_running (a : action) (w w' : world) :
  step a w = Some w' ->
  m_running (pool w') = m_running (pool w) \/
  (a = StepShutdown /\ in_shutdown w = NotInShutdown /\
   m_running (pool w') = false).
Proof.
  intros Hstep. destruct a; simpl in Hstep; unfold_ops;
    repeat (case_match; simplify_eq/=); auto.
Qed.

Lemma run_running_false (sched : list action) (w w' : world) :
  run sched w = Some w' ->
  m_running (pool w) = false -> m_running (pool w') = false.
Proof.
  revert w. induction sched as [|a sched IH]; intros w Hrun Hw; simpl in Hrun.
  - by injection Hrun as <-.
  - destruct (step a w) as [w1|] eqn:Hstep; [|discriminate Hrun].
    apply (IH w1 Hrun).
    destruct (step_running a w w1 Hstep) as [H | (_ & _ & H)]; congruence.
Qed.

(** The loop of [Init] starts [k] threads when the platform has that many
    left, and throws otherwise. *)
Lemma spawn_replicate (k available : nat) (ws : list thread) :
  spawn k available ws =
  if (k <=? available)%nat then Some (ws ++ replicate k fresh_thread)
  else None.
Proof.
  revert available ws. induction k as [|k IH]; intros available ws; simpl.
  - by rewrite app_nil_r.
  - destruct available as [|available']; [reflexivity|].
    rewrite IH, <- app_assoc. reflexivity.
Qed.

(** [Init] written out: it returns exactly when the reserve and every thread
    are granted and the loop counter stays in range, and then with the three
    queues assigned and the threads appended. *)
Lemma Init_unfold (n : N) (h : host) (s : impl) :
  Init n h s =
  if ((n <=? reserve_available h) && (n <=? INT_MAX) &&
      (n <=? threads_available h))%N
  then Some (set_workers (m_workers s ++ replicate (N.to_nat n) fresh_thread)
               (set_jobs
                  (map_at (map_at (map_at (m_jobsByPriority s) Normal
                                     (fun _ => [])) High (fun _ => []))
                     Critical (fun _ => [])) s))
  else None.
Proof.
  unfold Init. rewrite spawn_replicate.
  destruct (n <=? reserve_available h)%N; [|reflexivity].
  destruct (n <=? INT_MAX)%N; [|reflexivity]. simpl.
  destruct (N.leb_spec n (threads_available h)) as [Hle | Hlt].
  - assert ((N.to_nat n <=? N.to_nat (threads_available h))%nat = true) as ->
      by (apply Nat.leb_le; lia).
    reflexivity.
  - assert ((N.to_nat n <=? N.to_nat (threads_available h))%nat = false) as ->
      by (apply Nat.leb_gt; lia).
    reflexivity.
Qed.

Lemma Init_running (n : N) (h : host) (s s' : impl) :
  Init n h s = Some s' -> m_running s' = m_running s.
Proof.
  rewrite Init_unfold. case_match; [|discriminate].
  by intros [= <-].
Qed.

Lemma ThreadPool_running arg hw w0 :
  ThreadPool arg hw = Some w0 -> m_running (pool w0) = true.
Proof.
  unfold ThreadPool.
  destruct (Init _ _ new_impl) as [s|] eqn:HInit; [|discriminate].
  intros [= <-]. simpl. by rewrite (Init_running _ _ _ _ HInit).
Qed.

(** Claim C7.  [m_running] is true when the constructor returns; a step of the
    pool (a [Schedule] call, a step of [Shutdown], a worker step, a spurious
    wake-up) either leaves it as it is or is the store of [false] in
    [Shutdown]; and once it is false it is false after every further run. *)
Theorem m_running_monotonic :
  (forall arg hw w0,
     ThreadPool arg hw = Some w0 -> m_running (pool w0) = true) /\
  (forall a w w',
     step a w = Some w' ->
     m_running (pool w') = m_running (pool w) \/
     (a = StepShutdown /\ m_running (pool w') = false)) /\
  (forall sched w w',
     run sched w = Some w' ->
     m_running (pool w) = false -> m_running (pool w') = false).
Proof.
  split; [exact ThreadPool_running|]. split; [|exact run_running_false].
  intros a w w' Hstep.
  destruct (step_running a w w' Hstep) as [H | (Ha & _ & H)]; auto.
Qed.

(** An instance: after [Shutdown] has started on a one-worker pool, submitting
    a job and letting the worker run leaves the flag false. *)
Lemma m_running_monotonic_witness :
  exists w0 w1 w2,
    ThreadPool (Some 1%N) (host_with 4) = Some w0 /\
    run [StepShutdown] w0 = Some w1 /\
    run [CallSchedule High (fun _ => Returned 7) 0; StepWorker 0] w1
      = Some w2 /\
    m_running (pool w0) = true /\
    m_running (pool w1) = false /\
    m_running (pool w2) = false.
Proof.
  destruct m_running_monotonic as (Hinit & _ & Hrun).
  eexists _, _, _.
  split; [vm_compute; reflexivity|].
  split; [vm_compute; reflexivity|].
  split; [vm_compute; reflexivity|].
  split; [apply (Hinit (Some 1%N) (host_with 4)); vm_compute; reflexivity|].
  split; [reflexivity|].
  apply (Hrun [CallSchedule High (fun _ => Returned 7) 0; StepWorker 0]
           (mk_world
              {| m_running := false; m_guard := false; m_cvSleepCtrl := [];
                 m_workers := [{| joinable := true; pc := AtLoopTest |}];
                 m_jobsByPriority := three_queues [] [] [] |}
              [] AtNotifyAll []));
    vm_compute; reflexivity.
Defined.

(** ** The keys of [m_jobsByPriority] *)

Lemma map_at_three_queues qc qh qn p f :
  map_at (three_queues qc qh qn) p f =
  match p with
  | Critical => three_queues (f qc) qh qn
  | High => three_queues qc (f qh) qn
  | Normal => three_queues qc qh (f qn)
  end.
Proof. by destruct p. Qed.

Lemma scan_three_queues_keys qc qh qn :
  exists qc' qh' qn',
    (scan (three_queues qc qh qn)).2 = three_queues qc' qh' qn'.
Proof.
  rewrite scan_three_queues. destruct qc, qh, qn; simpl; eauto.
Qed.

Lemma Init_jobs (n : N) (h : host) (s' : impl) :
  Init n h new_impl = Some s' -> m_jobsByPriority s' = three_queues [] [] [].
Proof.
  rewrite Init_unfold. case_match; [|discriminate].
  by intros [= <-].
Qed.

(** No step adds or removes a queue. *)
Lemma step_three_queues (a : action) (w w' : world) :
  step a w = Some w' ->
  has_three_queues (pool w) -> has_three_queues (pool w').
Proof.
  intros Hstep (qc & qh & qn & Hm). unfold has_three_queues.
  destruct a as [priority f pick| |i|i]; simpl in Hstep; unfold_ops;
    repeat (case_match; simplify_eq/=); eauto.
  - rewrite Hm, map_at_three_queues. destruct priority; eauto.
  - match goal with
    | H : scan _ = _ |- _ =>
        rewrite Hm in H;
        destruct (scan_three_queues_keys qc qh qn) as (?&?&?&Hk);
        rewrite H in Hk; simpl in Hk; eauto
    end.
Qed.

Lemma run_three_queues (sched : list action) (w w' : world) :
  run sched w = Some w' ->
  has_three_queues (pool w) -> has_three_queues (pool w').
Proof.
  revert w. induction sched as [|a sched IH]; intros w Hrun Hw; simpl in Hrun.
  - by injection Hrun as <-.
  - destruct (step a w) as [w1|] eqn:Hstep; [|discriminate Hrun].
    eauto using step_three_queues.
Qed.

(** Claim C8.  [Init] leaves exactly the three queues Critical, High and
    Normal, all empty, and whatever the pool does afterwards (jobs added at
    any priority, worker scans, [Shutdown]) the map still consists of exactly
    one queue for each of the three priorities. *)
Theorem one_queue_per_priority arg hw (w0 : world) (sched : list action)
  (w : world) :
  ThreadPool arg hw = Some w0 ->
  run sched w0 = Some w ->
  m_jobsByPriority (pool w0) = three_queues [] [] [] /\
  (exists qc qh qn, m_jobsByPriority (pool w) = three_queues qc qh qn) /\
  (forall a w', step a w = Some w' ->
     exists qc qh qn, m_jobsByPriority (pool w') = three_queues qc qh qn).
Proof.
  intros Hctor Hrun. unfold ThreadPool in Hctor.
  destruct (Init _ _ new_impl) as [s|] eqn:HInit; [|discriminate].
  injection Hctor as <-. simpl in *.
  pose proof (Init_jobs _ _ _ HInit) as Hm0.
  assert (has_three_queues (pool w)) as Hw.
  { eapply run_three_queues; [exact Hrun|]. simpl. red. eauto. }
  split; [done|]. split; [exact Hw|].
  intros a w' Hstep. exact (step_three_queues a w w' Hstep Hw).
Qed.

Lemma one_queue_per_priority_witness :
  exists w0 w,
    ThreadPool None (host_with 2) = Some w0 /\
    run [CallSchedule Normal (fun _ => Returned 1) 0;
         CallSchedule Critical (fun _ => Returned 2) 0;
         StepWorker 0; StepWorker 0; StepShutdown] w0 = Some w /\
    m_jobsByPriority (pool w0) = three_queues [] [] [] /\
    exists qc qh qn, m_jobsByPriority (pool w) = three_queues qc qh qn.
Proof.
  eexists _, _.
  split; [vm_compute; reflexivity|]. split; [vm_compute; reflexivity|].
  match goal with
  | |- m_jobsByPriority (pool ?a) = _ /\ _ =>
      match goal with
      | |- _ /\ (exists qc qh qn, m_jobsByPriority (pool ?b) = _) =>
          destruct (one_queue_per_priority None (host_with 2) a
                      [CallSchedule Normal (fun _ => Returned 1) 0;
                       CallSchedule Critical (fun _ => Returned 2) 0;
                       StepWorker 0; StepWorker 0; StepShutdown] b)
            as (H0 & Hw & _);
          [vm_compute; reflexivity | vm_compute; reflexivity
          | exact (conj H0 Hw)]
      end
  end.
Defined.

(** ** The constructor *)

(** Claim C2, as stated, fails: asked for zero threads, by an explicit argument
    or because the platform reports no hardware concurrency, the constructor
    returns a pool without any worker. *)
Lemma ThreadPool_zero_spawns_none :
  (exists w, ThreadPool (Some 0%N) (host_with 4) = Some w /\
             length (m_workers (pool w)) = 0%nat) /\
  (exists w, ThreadPool None (host_with 0) = Some w /\
             length (m_workers (pool w)) = 0%nat) /\
  ~ (forall arg hw w, ThreadPool arg hw = Some w ->
       (1 <= length (m_workers (pool w)))%nat).
Proof.
  split; [eexists; split; vm_compute; reflexivity|].
  split; [eexists; split; vm_compute; reflexivity|].
  intros H.
  specialize (H (Some 0%N) (host_with 4)
                (mk_world (set_jobs (three_queues [] [] []) new_impl) []
                   NotInShutdown []) eq_refl).
  simpl in H. lia.
Qed.

(** Claim C2, amended.  The constructor is asked for a number of threads: its
    argument, or the reported hardware concurrency when there is none.  It
    returns a pool exactly when the platform grants the reserve and every one
    of these threads and the count is at most [INT_MAX]; when the reserve or
    a thread is refused, or the count is larger, no pool is constructed.
    Whenever the constructor returns, the pool has exactly the requested
    number of workers, each started at the loop test, so it has at least one
    worker exactly when the requested count is at least one. *)
Theorem ThreadPool_spawns_requested (arg : option N) (hw : host) :
  ((exists w, ThreadPool arg hw = Some w) <->
   (requested arg hw <= reserve_available hw)%N /\
   (requested arg hw <= INT_MAX)%N /\
   (requested arg hw <= threads_available hw)%N) /\
  ((reserve_available hw < requested arg hw)%N \/
   (INT_MAX < requested arg hw)%N \/
   (threads_available hw < requested arg hw)%N ->
   ThreadPool arg hw = None) /\
  (forall w, ThreadPool arg hw = Some w ->
     m_workers (pool w) = replicate (N.to_nat (requested arg hw)) fresh_thread /\
     length (m_workers (pool w)) = N.to_nat (requested arg hw) /\
     ((1 <= length (m_workers (pool w)))%nat <-> (1 <= requested arg hw)%N)).
Proof.
  unfold ThreadPool. fold (requested arg hw). rewrite Init_unfold.
  destruct (N.leb_spec (requested arg hw) (reserve_available hw)) as [Hr | Hr];
    destruct (N.leb_spec (requested arg hw) INT_MAX) as [Hi | Hi];
    destruct (N.leb_spec (requested arg hw) (threads_available hw))
      as [Ht | Ht]; simpl.
  1: { split; [split; [auto | eauto]|].
       split; [lia|].
       intros w [= <-]. simpl.
       split; [reflexivity|]. rewrite length_replicate.
       split; [reflexivity|]. lia. }
  all: split; [split; [by intros [w Hw] | lia]|].
  all: split; [reflexivity | discriminate].
Qed.

Lemma ThreadPool_spawns_requested_witness :
  (exists w,
     ThreadPool (Some 3%N) (host_with 8) = Some w /\
     m_workers (pool w) = [fresh_thread; fresh_thread; fresh_thread]) /\
  ThreadPool (Some 100000%N) (host_with 8) = None.
Proof.
  destruct (ThreadPool_spawns_requested (Some 3%N) (host_with 8))
    as ([_ Hex] & _ & Hws).
  destruct (ThreadPool_spawns_requested (Some 100000%N) (host_with 8))
    as (_ & Hnone & _).
  split.
  - destruct Hex as [w Hw]; [vm_compute; repeat split; discriminate|].
    exists w. split; [exact Hw|]. by destruct (Hws w Hw) as [-> _].
  - apply Hnone. left. vm_compute. reflexivity.
Defined.

(** ** [AddJob] *)

Lemma AddJob_free (job : function_void) (priority : Priority) (pick : nat)
  (w : world) :
  m_guard (pool w) = false ->
  let k := (pick mod length (m_cvSleepCtrl (pool w)))%nat in
  AddJob job priority pick w =
  Some (tt,
        mk_world
          (set_waiters (delete k (m_cvSleepCtrl (pool w)))
             (set_jobs (map_at (m_jobsByPriority (pool w)) priority
                          (fun q => q ++ [job])) (pool w)))
          (shared_states w) (in_shutdown w)
          (events w ++ [EvLock Caller;
                        EvNotifyOne (m_cvSleepCtrl (pool w) !! k);
                        EvUnlock Caller])).
Proof.
  intros Hg k. unfold_ops. rewrite Hg. simpl.
  destruct w as [[r g c ws m] sh sd ev]; simpl in *. subst g.
  unfold log, with_pool, mk_world, set_guard, set_waiters, set_jobs; simpl.
  by rewrite <- !app_assoc.
Qed.

(** Claim C5, as stated, fails on the order of the last two operations: with a
    worker parked on the condition variable, [AddJob] signals it while the
    caller still holds [m_guard] and releases the mutex afterwards. *)
Lemma AddJob_notifies_before_unlock :
  exists w',
    AddJob (Some (RunPackagedTask 0 (fun _ => Returned 5))) Normal 0
      one_parked_worker = Some (tt, w') /\
    events w' = [EvLock Caller; EvNotifyOne (Some 0%nat); EvUnlock Caller] /\
    events w' <> [EvLock Caller; EvUnlock Caller; EvNotifyOne (Some 0%nat)].
Proof.
  eexists. split; [vm_compute; reflexivity|]. split; [reflexivity|].
  simpl. discriminate.
Qed.

(** Claim C5, amended.  [AddJob] takes [m_guard], appends the job at the back
    of the queue of its priority and leaves the two other queues as they are,
    signals one waiting worker (not all: the other waiters stay parked; no one
    when nobody waits) while it still holds the mutex, and releases the mutex
    when it returns. *)
Theorem AddJob_appends_and_notifies_one
  (w : world) (job : function_void) (priority : Priority) (pick : nat)
  (qc qh qn : job_queue) :
  m_guard (pool w) = false ->
  m_jobsByPriority (pool w) = three_queues qc qh qn ->
  exists w' woken,
    AddJob job priority pick w = Some (tt, w') /\
    m_jobsByPriority (pool w') =
      match priority with
      | Critical => three_queues (qc ++ [job]) qh qn
      | High => three_queues qc (qh ++ [job]) qn
      | Normal => three_queues qc qh (qn ++ [job])
      end /\
    events w' = events w ++ [EvLock Caller; EvNotifyOne woken; EvUnlock Caller] /\
    match woken with
    | Some i =>
        exists before after,
          m_cvSleepCtrl (pool w) = before ++ i :: after /\
          m_cvSleepCtrl (pool w') = before ++ after
    | None => m_cvSleepCtrl (pool w) = [] /\ m_cvSleepCtrl (pool w') = []
    end /\
    m_guard (pool w') = false /\
    m_running (pool w') = m_running (pool w) /\
    m_workers (pool w') = m_workers (pool w) /\
    shared_states w' = shared_states w.
Proof.
  intros Hg Hm.
  pose proof (AddJob_free job priority pick w Hg) as Hadd. simpl in Hadd.
  set (k := (pick mod length (m_cvSleepCtrl (pool w)))%nat) in *.
  eexists _, (m_cvSleepCtrl (pool w) !! k).
  split; [exact Hadd|]. simpl.
  split; [by rewrite Hm, map_at_three_queues|].
  split; [reflexivity|].
  split; [|by rewrite Hg].
  destruct (m_cvSleepCtrl (pool w) !! k) as [i|] eqn:Hk.
  - exists (take k (m_cvSleepCtrl (pool w))), (drop (S k) (m_cvSleepCtrl (pool w))).
    split.
    + symmetry. by apply take_drop_middle.
    + by rewrite delete_take_drop.
  - destruct (m_cvSleepCtrl (pool w)) as [|i c] eqn:Hc; [done|].
    apply lookup_ge_None in Hk. exfalso.
    pose proof (Nat.mod_upper_bound pick (length (i :: c))) as Hb.
    subst k. simpl in *. lia.
Qed.

Lemma AddJob_appends_and_notifies_one_witness :
  exists w',
    AddJob (Some (RunPackagedTask 1 (fun _ => Returned 2))) High 0
      two_parked_workers = Some (tt, w') /\
    m_jobsByPriority (pool w') =
      three_queues []
        [Some (RunPackagedTask 0 (fun _ => Returned 1));
         Some (RunPackagedTask 1 (fun _ => Returned 2))] [] /\
    m_cvSleepCtrl (pool w') = [0%nat] /\
    m_guard (pool w') = false.
Proof.
  destruct (AddJob_appends_and_notifies_one two_parked_workers
              (Some (RunPackagedTask 1 (fun _ => Returned 2))) High 0
              [] [Some (RunPackagedTask 0 (fun _ => Returned 1))] [])
    as (w' & woken & Hadd & Hm & _ & _ & Hg & _);
    [reflexivity | reflexivity |].
  exists w'. split; [exact Hadd|]. split; [exact Hm|]. split; [|exact Hg].
  vm_compute in Hadd. by injection Hadd as <-.
Defined.

(** ** What holds in every world the pool reaches *)

Lemma put_pc_lookup_ne i j p s :
  i <> j -> m_workers (put_pc i p s) !! j = m_workers s !! j.
Proof. intros H. unfold put_pc. simpl. by rewrite list_lookup_alter_ne. Qed.

Lemma put_pc_joinable i p s j th' :
  m_workers (put_pc i p s) !! j = Some th' ->
  exists th, m_workers s !! j = Some th /\ joinable th = joinable th'.
Proof.
  intros H. destruct (decide (i = j)) as [->|Hne].
  - unfold put_pc in H. simpl in H. rewrite list_lookup_alter_eq in H.
    destruct (m_workers s !! j) as [th|]; [|discriminate H].
    injection H as <-. eauto.
  - rewrite put_pc_lookup_ne in H by done. eauto.
Qed.

(** A worker that is not parked and has not finished moves on. *)
Lemma put_pc_keeps i p s th :
  parked_are_waiting s -> joined_are_finished s ->
  m_workers s !! i = Some th -> pc th <> Finished ->
  i ∉ m_cvSleepCtrl s ->
  parked_are_waiting (put_pc i p s) /\ joined_are_finished (put_pc i p s).
Proof.
  intros Hpark Hjoin Hth Hpc Hi. split.
  - intros j Hj. change (m_cvSleepCtrl (put_pc i p s)) with (m_cvSleepCtrl s) in Hj.
    assert (i <> j) by (intros ->; done).
    rewrite put_pc_lookup_ne by done. by apply Hpark.
  - intros j th' Hlook Hnj. destruct (decide (i = j)) as [->|Hne].
    + rewrite (put_pc_lookup _ _ _ _ Hth) in Hlook. injection Hlook as <-.
      simpl in *. exfalso. apply Hpc. by eapply Hjoin.
    + rewrite put_pc_lookup_ne in Hlook by done. by eapply Hjoin.
Qed.

Lemma shutdown_progress_put_pc i p w sh ev :
  shutdown_progress w ->
  shutdown_progress (mk_world (put_pc i p (pool w)) sh (in_shutdown w) ev).
Proof.
  unfold shutdown_progress. simpl.
  destruct (in_shutdown w) as [| |k]; [done|done|].
  intros [Hr Hj]. split; [done|]. intros j th' Hlt Hlook.
  apply put_pc_joinable in Hlook as (th & Hlook & <-). by eapply Hj.
Qed.

Lemma not_parked_unless_waiting s i th :
  parked_are_waiting s -> m_workers s !! i = Some th -> pc th <> InWait ->
  i ∉ m_cvSleepCtrl s.
Proof.
  intros Hpark Hth Hpc Hin. destruct (Hpark i Hin) as (th' & Hth' & Hw).
  congruence.
Qed.

Lemma moves_consistent (a : action) (w w' : world) :
  moves a w w' -> consistent w -> consistent w'.
Proof.
  intros Hmv (Hg & Hpark & Hjoin & Hsd).
  destruct Hmv; unfold consistent; simpl.
  - (* Schedule *)
    split; [done|]. split; [|split; [done|]].
    + intros j Hj. apply Hpark. simpl in Hj.
      by eapply list_elem_of_delete_inv.
    + unfold shutdown_progress in *. simpl. by destruct (in_shutdown w).
  - (* Shutdown: store to m_running *)
    split; [done|]. split; [done|]. split; [done|]. reflexivity.
  - (* Shutdown: notify_all *)
    split; [done|]. split; [intros j Hj; inversion Hj|]. split; [done|].
    unfold shutdown_progress in *. simpl. rewrite H in Hsd.
    split; [done|]. intros; lia.
  - (* Shutdown: join *)
    unfold shutdown_progress in *. simpl. rewrite H in Hsd.
    destruct Hsd as [Hr Hdone].
    split; [done|]. split; [|split; [|split; [done|]]].
    + intros j Hj. destruct (Hpark j Hj) as (th' & Hth' & Hw).
      assert (k <> j) by (intros ->; congruence).
      exists th'. unfold put_joined. simpl.
      by rewrite list_lookup_alter_ne.
    + intros j th' Hlook Hnj. unfold put_joined in Hlook. simpl in Hlook.
      destruct (decide (k = j)) as [->|Hne].
      * rewrite list_lookup_alter_eq, H0 in Hlook. injection Hlook as <-.
        done.
      * rewrite list_lookup_alter_ne in Hlook by done. by eapply Hjoin.
    + intros j th' Hlt Hlook. unfold put_joined in Hlook. simpl in Hlook.
      destruct (decide (k = j)) as [->|Hne].
      * rewrite list_lookup_alter_eq, H0 in Hlook. by injection Hlook as <-.
      * rewrite list_lookup_alter_ne in Hlook by done.
        eapply Hdone; [|done]. lia.
  - (* Shutdown: the thread was joined before *)
    unfold shutdown_progress in *. simpl. rewrite H in Hsd.
    destruct Hsd as [Hr Hdone].
    split; [done|]. split; [done|]. split; [done|]. split; [done|].
    intros j th' Hlt Hlook. destruct (decide (j = k)) as [->|Hne].
    + congruence.
    + eapply Hdone; [|done]. lia.
  - (* Shutdown: return *)
    done.
  - (* worker: loop test *)
    assert (pc th <> InWait) as Hnw by congruence.
    pose proof (not_parked_unless_waiting _ _ _ Hpark H Hnw) as Hi.
    destruct (put_pc_keeps i (if m_running (pool w) then InWait else Finished)
                (pool w) th) as [? ?]; try done; [congruence|].
    split; [done|]. split; [done|]. split; [done|].
    by apply shutdown_progress_put_pc.
  - (* worker: takes a job *)
    destruct (put_pc_keeps i (HoldsJob (scan (m_jobsByPriority (pool w))).1)
                (set_jobs (scan (m_jobsByPriority (pool w))).2 (pool w)) th)
      as [? ?]; try done; [congruence|].
    split; [done|]. split; [done|]. split; [done|].
    unfold shutdown_progress in *. simpl.
    destruct (in_shutdown w) as [| |k]; [done|done|].
    destruct Hsd as [Hr Hdone]. split; [done|]. intros j th' Hlt Hlook.
    apply put_pc_joinable in Hlook as (th0 & Hlook & <-). by eapply Hdone.
  - (* worker: parks *)
    split; [done|]. split; [|split; [done|]].
    + intros j Hj. apply elem_of_app in Hj as [Hj|Hj]; [by apply Hpark|].
      apply list_elem_of_singleton in Hj as ->. eauto.
    + unfold shutdown_progress in *. simpl. by destruct (in_shutdown w).
  - (* worker: empty job *)
    assert (pc th <> InWait) as Hnw by congruence.
    pose proof (not_parked_unless_waiting _ _ _ Hpark H Hnw) as Hi.
    destruct (put_pc_keeps i AtLoopTest (pool w) th) as [? ?]; try done;
      [congruence|].
    split; [done|]. split; [done|]. split; [done|].
    by apply shutdown_progress_put_pc.
  - (* worker: job returned *)
    assert (pc th <> InWait) as Hnw by congruence.
    pose proof (not_parked_unless_waiting _ _ _ Hpark H Hnw) as Hi.
    destruct (put_pc_keeps i AtLoopTest (pool w) th) as [? ?]; try done;
      [congruence|].
    split; [done|]. split; [done|]. split; [done|].
    by apply shutdown_progress_put_pc.
  - (* worker: job threw *)
    assert (pc th <> InWait) as Hnw by congruence.
    pose proof (not_parked_unless_waiting _ _ _ Hpark H Hnw) as Hi.
    destruct (put_pc_keeps i (Terminated e) (pool w) th) as [? ?]; try done;
      [congruence|].
    split; [done|]. split; [done|]. split; [done|].
    by apply shutdown_progress_put_pc.
  - (* spurious wake-up *)
    split; [done|]. split; [|split; [done|]].
    + intros j Hj. apply list_elem_of_filter in Hj as [_ Hj]. by apply Hpark.
    + unfold shutdown_progress in *. simpl. by destruct (in_shutdown w).
Qed.

Lemma step_consistent (a : action) (w w' : world) :
  step a w = Some w' -> consistent w -> consistent w'.
Proof.
  intros Hstep Hc. eapply moves_consistent; [|exact Hc].
  apply step_moves; [apply Hc | exact Hstep].
Qed.

Lemma run_consistent (sched : list action) (w w' : world) :
  run sched w = Some w' -> consistent w -> consistent w'.
Proof.
  revert w. induction sched as [|a sched IH]; intros w Hrun Hw; simpl in Hrun.
  - by injection Hrun as <-.
  - destruct (step a w) as [w1|] eqn:Hstep; [|discriminate Hrun].
    eauto using step_consistent.
Qed.

Lemma run_app (s1 s2 : list action) (w w' : world) :
  run (s1 ++ s2) w = Some w' <->
  exists w1, run s1 w = Some w1 /\ run s2 w1 = Some w'.
Proof.
  revert w. induction s1 as [|a s1 IH]; intros w; simpl.
  - split; [eauto | by intros (w1 & [= <-] & H)].
  - destruct (step a w) as [w1|]; [apply IH|].
    split; [discriminate | by intros (? & ? & _)].
Qed.

Lemma ThreadPool_workers arg hw w0 :
  ThreadPool arg hw = Some w0 ->
  m_workers (pool w0) = replicate (N.to_nat (requested arg hw)) fresh_thread.
Proof.
  unfold ThreadPool. fold (requested arg hw). rewrite Init_unfold.
  destruct (andb _ _); [|discriminate].
  by intros [= <-].
Qed.

Lemma ThreadPool_consistent arg hw w0 :
  ThreadPool arg hw = Some w0 -> consistent w0.
Proof.
  intros Hctor. pose proof (ThreadPool_workers _ _ _ Hctor) as Hws.
  unfold ThreadPool in Hctor. fold (requested arg hw) in Hctor.
  rewrite Init_unfold in Hctor.
  destruct (andb _ _); [|discriminate].
  injection Hctor as <-. simpl in Hws.
  split; [reflexivity|]. split; [|split; [|exact I]].
  - intros i Hi. inversion Hi.
  - intros i th Hth Hj. simpl in Hth.
    apply lookup_replicate in Hth as [-> _]. discriminate Hj.
Qed.

(** ** [Shutdown] on a pool whose workers are joined *)

Lemma set_running_same (s : impl) :
  m_running s = false -> set_running false s = s.
Proof. destruct s; simpl. by intros ->. Qed.

Lemma set_waiters_same (s : impl) :
  m_cvSleepCtrl s = [] -> set_waiters [] s = s.
Proof. destruct s; simpl. by intros ->. Qed.

(** The loop over [m_workers] from index [k] on, when no thread is joinable:
    every iteration skips the [join], and the call returns. *)
Lemma Shutdown_loop_skips (m k : nat) (w : world) :
  in_shutdown w = AtJoin k ->
  (k + m)%nat = length (m_workers (pool w)) ->
  (forall i th, m_workers (pool w) !! i = Some th -> joinable th = false) ->
  run (replicate (S m) StepShutdown) w =
  Some (mk_world (pool w) (shared_states w) NotInShutdown (events w)).
Proof.
  revert k w. induction m as [|m IH]; intros k w Hsd Hlen Hnj.
  - simpl. unfold Shutdown_step, bind, gets, modify. rewrite Hsd.
    rewrite (lookup_ge_None_2 (m_workers (pool w)) k) by lia. reflexivity.
  - change (replicate (S (S m)) StepShutdown)
      with (StepShutdown :: replicate (S m) StepShutdown).
    cbn [run step]. unfold Shutdown_step, bind, gets, modify. rewrite Hsd.
    destruct (lookup_lt_is_Some_2 (m_workers (pool w)) k) as [th Hth];
      [lia|].
    rewrite Hth, (Hnj k th Hth). cbn [fmap option_fmap option_map snd].
    rewrite (IH (S k)); [reflexivity | reflexivity | simpl; lia | exact Hnj].
Qed.

Lemma Shutdown_all_joined (w : world) :
  all_joined w ->
  Shutdown w =
  Some (mk_world (pool w) (shared_states w) NotInShutdown
          (events w ++ [EvNotifyAll []])).
Proof.
  intros (Hsd & Hr & Hc & Hws). unfold Shutdown.
  replace (length (m_workers (pool w)) + 3)%nat
    with (S (S (S (length (m_workers (pool w)))))) by lia.
  change (replicate (S (S (S ?n))) StepShutdown)
    with (StepShutdown :: StepShutdown :: replicate (S n) StepShutdown).
  cbn [run step]. unfold Shutdown_step at 1. unfold bind, gets, modify.
  rewrite Hsd. cbn [fmap option_fmap option_map snd].
  unfold Shutdown_step at 1. unfold notify_all, bind, gets, modify.
  cbn [in_shutdown with_shutdown fmap option_fmap option_map snd].
  rewrite (Shutdown_loop_skips (length (m_workers (pool w))) 0).
  - simpl. rewrite Hc, (set_running_same _ Hr), (set_waiters_same _ Hc).
    reflexivity.
  - reflexivity.
  - reflexivity.
  - simpl. intros i th Hth. by destruct (Hws i th Hth).
Qed.

(** The step with which a [Shutdown] call returns leaves every worker joined. *)
Lemma Shutdown_return_all_joined (w1 w : world) :
  consistent w1 ->
  step StepShutdown w1 = Some w ->
  in_shutdown w = NotInShutdown ->
  all_joined w.
Proof.
  intros (Hg & Hpark & Hjoin & Hsd) Hstep Hret.
  apply step_moves in Hstep; [|exact Hg].
  inversion Hstep as [| | | | |w0 k Hk Hnone| | | | | | |]; subst;
    try discriminate Hret.
  unfold shutdown_progress in Hsd. rewrite Hk in Hsd.
  destruct Hsd as [Hr Hdone].
  assert (forall i th, m_workers (pool w1) !! i = Some th ->
            joinable th = false /\ pc th = Finished) as Hall.
  { intros i th Hth.
    assert (joinable th = false) as Hnj.
    { eapply Hdone; [|exact Hth].
      apply lookup_lt_Some in Hth. apply lookup_ge_None in Hnone. lia. }
    split; [exact Hnj|]. by eapply Hjoin. }
  split; [reflexivity|]. split; [exact Hr|]. split; [|exact Hall].
  simpl. destruct (m_cvSleepCtrl (pool w1)) as [|i c] eqn:Hc; [reflexivity|].
  exfalso. destruct (Hpark i) as (th & Hth & Hw); [rewrite Hc; left|].
  destruct (Hall i th Hth) as [_ Hfin]. congruence.
Qed.

(** Claim C6.  When a [Shutdown] call has returned, a second call runs through
    without blocking and leaves the pool and the results of the jobs exactly
    as the first call left them: [m_running] false, every worker finished and
    joined. *)
Theorem Shutdown_idempotent arg hw (w0 : world) (sched : list action)
  (w : world) :
  ThreadPool arg hw = Some w0 ->
  run (sched ++ [StepShutdown]) w0 = Some w ->
  in_shutdown w = NotInShutdown ->
  exists w',
    Shutdown w = Some w' /\
    pool w' = pool w /\
    shared_states w' = shared_states w /\
    in_shutdown w' = NotInShutdown /\
    m_running (pool w') = false /\
    forall i th, m_workers (pool w') !! i = Some th ->
      joinable th = false /\ pc th = Finished.
Proof.
  intros Hctor Hrun Hret.
  apply run_app in Hrun as (w1 & Hrun1 & Hlast). cbn [run] in Hlast.
  destruct (step StepShutdown w1) as [w2|] eqn:Hstep; [|discriminate Hlast].
  injection Hlast as ->.
  assert (consistent w1) as Hc1
    by (eapply run_consistent; eauto using ThreadPool_consistent).
  pose proof (Shutdown_return_all_joined w1 w Hc1 Hstep Hret) as Hall.
  eexists. split; [by apply Shutdown_all_joined|]. simpl.
  destruct Hall as (_ & Hr & _ & Hws). done.
Qed.

Lemma Shutdown_idempotent_witness :
  exists w0 w w',
    ThreadPool (Some 2%N) (host_with 4) = Some w0 /\
    run ([CallSchedule Normal (fun _ => Returned 1) 0;
          StepWorker 0; StepWorker 0; StepWorker 1;
          StepShutdown; StepShutdown;
          StepWorker 0; StepWorker 0;
          StepWorker 1; StepWorker 1; StepWorker 1;
          StepShutdown; StepShutdown] ++ [StepShutdown]) w0 = Some w /\
    Shutdown w = Some w' /\
    pool w' = pool w /\
    m_running (pool w') = false.
Proof.
  eexists _, _.
  match goal with
  | |- exists w', ThreadPool _ _ = Some ?a /\ run _ _ = Some ?b /\ _ =>
      assert (ThreadPool (Some 2%N) (host_with 4) = Some a) as H0
        by (vm_compute; reflexivity);
      assert (run ([CallSchedule Normal (fun _ => Returned 1) 0;
                    StepWorker 0; StepWorker 0; StepWorker 1;
                    StepShutdown; StepShutdown;
                    StepWorker 0; StepWorker 0;
                    StepWorker 1; StepWorker 1; StepWorker 1;
                    StepShutdown; StepShutdown] ++ [StepShutdown]) a = Some b)
        as H1 by (vm_compute; reflexivity);
      destruct (Shutdown_idempotent (Some 2%N) (host_with 4) a _ b H0 H1)
        as (w' & Hs & Hp & _ & _ & Hr & _); [reflexivity|];
      exists w'; split; [exact H0|]; split; [exact H1|];
      split; [exact Hs|]; split; [exact Hp | exact Hr]
  end.
Defined.

(** ** The guard [job != nullptr] *)

Lemma worker_step_no_bad_call (w : world) (i : nat) (w' : world) :
  worker_step i w = Some (tt, w') ->
  ~ worker_at w' i (Terminated bad_function_call).
Proof.
  intros Hstep (th' & Hth' & Hpc').
  unfold_ops.
  destruct (m_workers (pool w) !! i) as [th|] eqn:Hth; [|discriminate Hstep].
  assert (forall p s, p <> Terminated bad_function_call ->
            m_workers (put_pc i p s) !! i = Some th' -> False) as Hput.
  { intros p s Hp Hlook. unfold put_pc in Hlook. simpl in Hlook.
    rewrite list_lookup_alter_eq in Hlook.
    destruct (m_workers s !! i); [|discriminate Hlook].
    injection Hlook as <-. simpl in Hpc'. congruence. }
  revert Hth'.
  repeat (case_match; simplify_eq/=); intros Hth';
    try (eapply Hput; [|exact Hth']; by try case_match).
  rewrite Hth in Hth'. injection Hth' as <-. congruence.
Qed.

(** Claim C10.  A worker step never ends in the exception of a call to an empty
    [std::function].  When the wait is over while every queue is empty, the
    scan leaves [job] empty and the map untouched, and the next step of the
    worker skips the call: it goes back to the loop test and no result of any
    job changes. *)
Theorem empty_job_never_invoked (w : world) (i : nat) (th : thread)
  (w' : world) :
  m_guard (pool w) = false ->
  m_workers (pool w) !! i = Some th ->
  worker_step i w = Some (tt, w') ->
  ~ worker_at w' i (Terminated bad_function_call) /\
  (pc th = InWait ->
   wait_predicate (pool w) = true ->
   allQueuesEmpty (m_jobsByPriority (pool w)) = true ->
   m_workers (pool w') !! i =
     Some {| joinable := joinable th; pc := HoldsJob None |} /\
   m_jobsByPriority (pool w') = m_jobsByPriority (pool w) /\
   shared_states w' = shared_states w) /\
  (pc th = HoldsJob None ->
   pool w' = put_pc i AtLoopTest (pool w) /\
   m_workers (pool w') !! i =
     Some {| joinable := joinable th; pc := AtLoopTest |} /\
   shared_states w' = shared_states w).
Proof.
  intros Hg Hth Hstep.
  split; [by eapply worker_step_no_bad_call|].
  assert (step (StepWorker i) w = Some w') as Hstep'
    by (simpl; by rewrite Hstep).
  apply step_moves in Hstep'; [|exact Hg].
  split.
  - intros Hpc Hpred Hempty.
    inversion Hstep'; subst; simplify_eq/=; try congruence.
    rewrite (scan_all_empty _ Hempty). simpl.
    rewrite list_lookup_alter_eq, Hth. done.
  - intros Hpc.
    inversion Hstep'; subst; simplify_eq/=; try congruence.
    rewrite list_lookup_alter_eq, Hth. done.
Qed.

Lemma empty_job_never_invoked_witness :
  exists w1 w2,
    worker_step 0 woken_by_shutdown = Some (tt, w1) /\
    m_workers (pool w1) !! 0%nat =
      Some {| joinable := true; pc := HoldsJob None |} /\
    worker_step 0 w1 = Some (tt, w2) /\
    m_workers (pool w2) !! 0%nat =
      Some {| joinable := true; pc := AtLoopTest |} /\
    ~ worker_at w2 0 (Terminated bad_function_call).
Proof.
  eexists _, _.
  match goal with
  | |- worker_step _ _ = Some (tt, ?a) /\ _ /\ worker_step _ _ = Some (tt, ?b) /\ _ =>
      assert (worker_step 0 woken_by_shutdown = Some (tt, a)) as H1
        by (vm_compute; reflexivity);
      assert (worker_step 0 a = Some (tt, b)) as H2
        by (vm_compute; reflexivity);
      destruct (empty_job_never_invoked woken_by_shutdown 0
                  {| joinable := true; pc := InWait |} a eq_refl eq_refl H1)
        as (_ & Hwait & _);
      destruct (Hwait eq_refl eq_refl eq_refl) as (Hpc1 & _);
      destruct (empty_job_never_invoked a 0
                  {| joinable := true; pc := HoldsJob None |} b
                  eq_refl eq_refl H2)
        as (Hno & _ & Hskip);
      destruct (Hskip eq_refl) as (_ & Hpc2 & _);
      split; [exact H1|]; split; [exact Hpc1|]; split; [exact H2|];
      split; [exact Hpc2 | exact Hno]
  end.
Defined.

(** ** A job taken after [Shutdown] has cleared the flag *)

(** Claim C3 at a concrete run.  One worker parks on the empty pool; a job is
    submitted, which signals the worker; [Shutdown] stores [false] in
    [m_running] before the worker has re-taken the mutex.  The worker then
    finds the predicate true, and its scan takes the queued job although
    [m_running] is false. *)
Lemma worker_takes_job_after_flag_cleared :
  exists w0 w1 w2,
    ThreadPool (Some 1%N) (host_with 4) = Some w0 /\
    run [StepWorker 0; StepWorker 0;
         CallSchedule Normal (fun _ => Returned 5) 0;
         StepShutdown] w0 = Some w1 /\
    m_running (pool w1) = false /\
    m_jobsByPriority (pool w1) =
      three_queues [] [] [Some (RunPackagedTask 0 (fun _ => Returned 5))] /\
    step (StepWorker 0) w1 = Some w2 /\
    m_running (pool w2) = false /\
    m_jobsByPriority (pool w2) = three_queues [] [] [] /\
    m_workers (pool w2) !! 0%nat =
      Some {| joinable := true;
              pc := HoldsJob (Some (RunPackagedTask 0 (fun _ => Returned 5))) |}.
Proof.
  eexists _, _, _.
  split; [vm_compute; reflexivity|].
  split; [vm_compute; reflexivity|].
  split; [reflexivity|]. split; [reflexivity|].
  split; [vm_compute; reflexivity|].
  split; [reflexivity|]. split; reflexivity.
Qed.

(** ** Every pending job calls a task that has not run yet *)

Lemma queued_tasks_cons k q (m : jobs_map) :
  queued_tasks ((k, q) :: m) = (q ≫= task_of) ++ queued_tasks m.
Proof. reflexivity. Qed.

Lemma queued_tasks_map_at (m : jobs_map) p job :
  queued_tasks (map_at m p (fun q => q ++ [job]))
  ≡ₚ queued_tasks m ++ task_of job.
Proof.
  induction m as [|[k q] m IH]; cbn [map_at].
  - rewrite queued_tasks_cons. simpl. by rewrite !app_nil_r.
  - destruct (Priority_eqb k p); [|destruct (greater p k)].
    + rewrite !queued_tasks_cons, bind_app. simpl. rewrite app_nil_r.
      rewrite <- !app_assoc. apply Permutation_app_head, Permutation_app_comm.
    + rewrite !queued_tasks_cons. simpl. rewrite app_nil_r.
      rewrite (Permutation_app_comm (task_of job)). by rewrite <- !app_assoc.
    + rewrite !queued_tasks_cons, IH. by rewrite app_assoc.
Qed.

Lemma queued_tasks_scan (m : jobs_map) :
  queued_tasks m = task_of (scan m).1 ++ queued_tasks (scan m).2.
Proof.
  induction m as [|[k q] m IH]; [reflexivity|]. cbn [scan].
  destruct q as [|front popped].
  - destruct (scan m) as [job rest'] eqn:E. cbn [fst snd] in *.
    rewrite !queued_tasks_cons, IH. reflexivity.
  - cbn [fst snd]. rewrite !queued_tasks_cons. simpl.
    by rewrite <- app_assoc.
Qed.

Lemma held_tasks_alter (ws : list thread) i th (g : thread -> thread) :
  ws !! i = Some th ->
  exists l1 l2,
    held_tasks ws = l1 ++ held_by (pc th) ++ l2 /\
    held_tasks (alter g i ws) = l1 ++ held_by (pc (g th)) ++ l2.
Proof.
  revert i. induction ws as [|th0 ws IH]; intros i Hth; [done|].
  destruct i as [|i]; simpl in Hth.
  - injection Hth as ->. exists [], (held_tasks ws). done.
  - destruct (IH i Hth) as (l1 & l2 & H1 & H2).
    exists (held_by (pc th0) ++ l1), l2.
    change (held_tasks (th0 :: ws)) with (held_by (pc th0) ++ held_tasks ws).
    change (held_tasks (alter g (S i) (th0 :: ws)))
      with (held_by (pc th0) ++ held_tasks (alter g i ws)).
    rewrite H1, H2. by rewrite <- !app_assoc.
Qed.

Lemma pending_put_pc (s : impl) i th p :
  m_workers s !! i = Some th ->
  exists l1 l2,
    pending_tasks s
      = queued_tasks (m_jobsByPriority s) ++ l1 ++ held_by (pc th) ++ l2 /\
    pending_tasks (put_pc i p s)
      = queued_tasks (m_jobsByPriority s) ++ l1 ++ held_by p ++ l2.
Proof.
  intros Hth.
  destruct (held_tasks_alter (m_workers s) i th
              (fun th => {| joinable := joinable th; pc := p |}) Hth)
    as (l1 & l2 & H1 & H2).
  exists l1, l2. unfold pending_tasks, put_pc. simpl. by rewrite H1, H2.
Qed.

Lemma held_tasks_same_pc (ws : list thread) k (g : thread -> thread) :
  (forall th, pc (g th) = pc th) ->
  held_tasks (alter g k ws) = held_tasks ws.
Proof.
  intros Hg. revert k. induction ws as [|th ws IH]; intros k; [done|].
  destruct k as [|k].
  - change (held_by (pc (g th)) ++ held_tasks ws
            = held_by (pc th) ++ held_tasks ws). by rewrite Hg.
  - change (held_by (pc th) ++ held_tasks (alter g k ws)
            = held_by (pc th) ++ held_tasks ws). by rewrite IH.
Qed.

Lemma pending_put_joined (s : impl) k :
  pending_tasks (put_joined k s) = pending_tasks s.
Proof.
  unfold pending_tasks, put_joined. simpl. f_equal.
  by apply held_tasks_same_pc.
Qed.

(** Nothing pending changes when a worker that holds no task moves to a place
    where it holds none. *)
Lemma pending_once_idle_move (w : world) i th p sd ev :
  m_workers (pool w) !! i = Some th ->
  held_by (pc th) = [] -> held_by p = [] ->
  pending_once w ->
  pending_once (mk_world (put_pc i p (pool w)) (shared_states w) sd ev).
Proof.
  intros Hth Hold Hnew [Hnd Hlook].
  destruct (pending_put_pc (pool w) i th p Hth) as (l1 & l2 & H1 & H2).
  unfold pending_once. simpl. rewrite H2, Hnew. rewrite H1, Hold in Hnd, Hlook.
  done.
Qed.

Lemma moves_pending_once (a : action) (w w' : world) :
  moves a w w' -> pending_once w -> pending_once w'.
Proof.
  intros Hmv Hp. pose proof Hp as [Hnd Hlook].
  destruct Hmv; try exact Hp.
  - (* Schedule *)
    unfold pending_once. simpl.
    assert (pending_tasks
              (set_waiters (delete k (m_cvSleepCtrl (pool w)))
                 (set_jobs (map_at (m_jobsByPriority (pool w)) priority
                    (fun q => q ++ [Some (RunPackagedTask t f)])) (pool w)))
            ≡ₚ t :: pending_tasks (pool w)) as Hperm.
    { unfold pending_tasks. simpl. rewrite queued_tasks_map_at. simpl.
      rewrite <- app_assoc. simpl.
      by rewrite <- Permutation_middle. }
    assert (t ∉ pending_tasks (pool w)) as Hfresh.
    { intros Hin. apply Hlook, lookup_lt_Some in Hin. subst t. lia. }
    split.
    + rewrite Hperm. by apply NoDup_cons.
    + intros t' Hin. rewrite Hperm in Hin.
      apply elem_of_cons in Hin as [-> | Hin].
      * by apply list_lookup_middle.
      * rewrite lookup_app_l; [by apply Hlook|].
        by eapply lookup_lt_Some, Hlook.
  - (* Shutdown: join *)
    unfold pending_once. simpl. by rewrite pending_put_joined.
  - (* worker: loop test *)
    eapply pending_once_idle_move; eauto; [by rewrite H0 | by case_match].
  - (* worker: takes a job *)
    set (m := m_jobsByPriority (pool w)) in *.
    destruct (pending_put_pc (set_jobs (scan m).2 (pool w)) i th
                (HoldsJob (scan m).1) H) as (l1 & l2 & H1' & H2').
    destruct (pending_put_pc (pool w) i th InWait H) as (k1 & k2 & K1 & K2).
    assert (pending_tasks
              (put_pc i (HoldsJob (scan m).1) (set_jobs (scan m).2 (pool w)))
            ≡ₚ pending_tasks (pool w)) as Hperm.
    { rewrite H2'. simpl.
      unfold pending_tasks in H1'. simpl in H1'.
      apply app_inv_head in H1'. rewrite H0 in H1'. simpl in H1'.
      unfold pending_tasks. fold m. rewrite H1', (queued_tasks_scan m).
      solve_Permutation. }
    unfold pending_once. simpl. split.
    + by rewrite Hperm.
    + intros t Hin. rewrite Hperm in Hin. by apply Hlook.
  - (* worker: empty job *)
    eapply pending_once_idle_move; eauto. by rewrite H0.
  - (* worker: job returned *)
    destruct (pending_put_pc (pool w) i th AtLoopTest H)
      as (l1 & l2 & H1' & H2').
    rewrite H0 in H1'. simpl in H1', H2'.
    assert (pending_tasks (pool w)
            ≡ₚ t :: pending_tasks (put_pc i AtLoopTest (pool w))) as Hperm.
    { rewrite H1', H2'. solve_Permutation. }
    rewrite Hperm in Hnd. apply NoDup_cons in Hnd as [Hfresh Hnd'].
    unfold pending_once. simpl. split; [done|].
    intros t' Hin. assert (t <> t') by (intros ->; done).
    rewrite list_lookup_insert_ne by done.
    apply Hlook. rewrite Hperm. by right.
  - (* worker: job threw *)
    destruct (pending_put_pc (pool w) i th (Terminated e) H)
      as (l1 & l2 & H1' & H2').
    rewrite H0 in H1'. simpl in H1', H2'.
    assert (pending_tasks (pool w)
            ≡ₚ t :: pending_tasks (put_pc i (Terminated e) (pool w)))
      as Hperm.
    { rewrite H1', H2'. solve_Permutation. }
    rewrite Hperm in Hnd. apply NoDup_cons in Hnd as [Hfresh Hnd'].
    unfold pending_once. simpl. split; [done|].
    intros t' Hin. apply Hlook. rewrite Hperm. by right.
Qed.

(** A job in the hands of a worker calls a task without a result, so the call
    returns normally. *)
Lemma holder_task_fresh (w : world) i th t f :
  pending_once w ->
  m_workers (pool w) !! i = Some th ->
  pc th = HoldsJob (Some (RunPackagedTask t f)) ->
  shared_states w !! t = Some None.
Proof.
  intros [_ Hlook] Hth Hpc. apply Hlook.
  destruct (pending_put_pc (pool w) i th AtLoopTest Hth)
    as (l1 & l2 & H1 & _).
  rewrite H1, Hpc. simpl. rewrite !elem_of_app. right. right. left.
Qed.

Lemma moves_none_terminated (a : action) (w w' : world) :
  moves a w w' -> pending_once w ->
  none_terminated (pool w) -> none_terminated (pool w').
Proof.
  intros Hmv Hp Hnt.
  assert (forall i p s, (forall e, p <> Terminated e) ->
            none_terminated s -> none_terminated (put_pc i p s)) as Hput.
  { intros i p s Hp' Hs j th' e Hlook.
    destruct (decide (i = j)) as [->|Hne].
    - unfold put_pc in Hlook. simpl in Hlook.
      rewrite list_lookup_alter_eq in Hlook.
      destruct (m_workers s !! j); [|discriminate Hlook].
      injection Hlook as <-. simpl. apply Hp'.
    - rewrite put_pc_lookup_ne in Hlook by done. by eapply Hs. }
  destruct Hmv; simpl; try exact Hnt.
  - (* Shutdown: join *)
    intros j th' e Hlook. unfold put_joined in Hlook. simpl in Hlook.
    destruct (decide (k = j)) as [->|Hne].
    + rewrite list_lookup_alter_eq, H0 in Hlook. injection Hlook as <-.
      simpl. congruence.
    + rewrite list_lookup_alter_ne in Hlook by done. by eapply Hnt.
  - apply Hput; [by case_match | exact Hnt].
  - apply Hput; [done | exact Hnt].
  - apply Hput; [done | exact Hnt].
  - apply Hput; [done | exact Hnt].
  - (* a throwing call needs a task that is absent or has its result *)
    exfalso. pose proof (holder_task_fresh w i th t f Hp H H0) as Hfresh.
    destruct H1 as [[Hnone _] | [[o Ho] _]]; congruence.
Qed.

Lemma step_sound (a : action) (w w' : world) :
  step a w = Some w' -> sound w -> sound w'.
Proof.
  intros Hstep (Hc & Hp & Hnt).
  assert (moves a w w') as Hmv by (apply step_moves; [apply Hc | done]).
  split; [by eapply moves_consistent|].
  split; [by eapply moves_pending_once | by eapply moves_none_terminated].
Qed.

Lemma run_sound (sched : list action) (w w' : world) :
  run sched w = Some w' -> sound w -> sound w'.
Proof.
  revert w. induction sched as [|a sched IH]; intros w Hrun Hw; simpl in Hrun.
  - by injection Hrun as <-.
  - destruct (step a w) as [w1|] eqn:Hstep; [|discriminate Hrun].
    eauto using step_sound.
Qed.

Lemma held_tasks_fresh (k : nat) : held_tasks (replicate k fresh_thread) = [].
Proof. induction k as [|k IH]; [done|]. exact IH. Qed.

Lemma ThreadPool_sound arg hw w0 : ThreadPool arg hw = Some w0 -> sound w0.
Proof.
  intros Hctor. split; [by eapply ThreadPool_consistent|].
  pose proof (ThreadPool_workers _ _ _ Hctor) as Hws.
  unfold ThreadPool in Hctor.
  destruct (Init _ _ new_impl) as [s|] eqn:HInit; [|discriminate].
  injection Hctor as <-. simpl in *.
  pose proof (Init_jobs _ _ _ HInit) as Hm.
  assert (pending_tasks s = []) as Hnone.
  { unfold pending_tasks. rewrite Hm, Hws, held_tasks_fresh. reflexivity. }
  split.
  - unfold pending_once. simpl. rewrite Hnone.
    split; [constructor | intros t Ht; inversion Ht].
  - intros i th e Hth. rewrite Hws in Hth.
    apply lookup_replicate in Hth as [-> _]. discriminate.
Qed.

(** [Schedule] when the mutex is free: the future it returns is that of a new
    task, and the job it queues calls this task around the bound callable. *)
Lemma Schedule_free (priority : Priority) (f : bound_call) (pick : nat)
  (w : world) :
  m_guard (pool w) = false ->
  exists w1,
    Schedule priority f pick w = Some (length (shared_states w), w1) /\
    m_jobsByPriority (pool w1) =
      map_at (m_jobsByPriority (pool w)) priority
        (fun q => q ++ [Some (RunPackagedTask (length (shared_states w)) f)]) /\
    future_result w1 (length (shared_states w)) = None.
Proof.
  intros Hg. unfold Schedule, bind, gets, modify. simpl.
  rewrite AddJob_free by (simpl; exact Hg). simpl.
  eexists. split; [reflexivity|]. simpl. split; [reflexivity|].
  unfold future_result. simpl. by rewrite list_lookup_middle.
Qed.

(** Claim C9.  In a pool reached from the constructor, submitting a callable
    queues a job that wraps it in a packaged task and returns the future of
    that task.  A worker that holds such a job runs it without an exception
    leaving the call, whatever the callable does: the packaged task stores the
    value or the exception in its shared state, so that a callable that throws
    delivers its exception through the future; the worker goes back to the
    loop test, to a pool state that does not depend on what the callable did,
    and no worker of the pool is terminated. *)
Theorem raising_job_is_captured arg hw (w0 : world) (sched : list action)
  (w : world) (i : nat) (th : thread) (t : nat) (f : bound_call) :
  ThreadPool arg hw = Some w0 ->
  run sched w0 = Some w ->
  m_workers (pool w) !! i = Some th ->
  pc th = HoldsJob (Some (RunPackagedTask t f)) ->
  (forall priority g pick,
     exists w1,
       Schedule priority g pick w = Some (length (shared_states w), w1) /\
       m_jobsByPriority (pool w1) =
         map_at (m_jobsByPriority (pool w)) priority
           (fun q =>
              q ++ [Some (RunPackagedTask (length (shared_states w)) g)])) /\
  exists w',
    step (StepWorker i) w = Some w' /\
    pool w' = put_pc i AtLoopTest (pool w) /\
    m_workers (pool w') !! i =
      Some {| joinable := joinable th; pc := AtLoopTest |} /\
    future_result w t = None /\
    future_result w' t = Some (f tt) /\
    (forall e, f tt = Threw e -> future_result w' t = Some (Threw e)) /\
    none_terminated (pool w').
Proof.
  intros Hctor Hrun Hth Hpc.
  assert (sound w) as Hs
    by (eapply run_sound; eauto using ThreadPool_sound).
  pose proof Hs as (Hc & Hp & Hnt).
  split.
  { intros priority g pick.
    destruct (Schedule_free priority g pick w) as (w1 & H1 & H2 & _);
      [apply Hc | eauto]. }
  pose proof (holder_task_fresh w i th t f Hp Hth Hpc) as Hfresh.
  assert (step (StepWorker i) w =
          Some (mk_world (put_pc i AtLoopTest (pool w))
                  (<[t := Some (f tt)]> (shared_states w))
                  (in_shutdown w) (events w))) as Hstep.
  { simpl. unfold_ops. rewrite Hth, Hpc. simpl. rewrite Hfresh. done. }
  assert (future_result
            (mk_world (put_pc i AtLoopTest (pool w))
               (<[t := Some (f tt)]> (shared_states w))
               (in_shutdown w) (events w)) t = Some (f tt)) as Hfut.
  { unfold future_result. simpl.
    by rewrite list_lookup_insert_eq by (by eapply lookup_lt_Some). }
  eexists. split; [exact Hstep|]. simpl.
  split; [reflexivity|].
  split; [rewrite list_lookup_alter_eq, Hth; reflexivity|].
  split; [unfold future_result; by rewrite Hfresh|].
  split; [exact Hfut|].
  split; [intros e He; by rewrite Hfut, He|].
  by destruct (step_sound _ _ _ Hstep Hs) as (_ & _ & ?).
Qed.

Lemma raising_job_is_captured_witness :
  exists w0 w w',
    ThreadPool (Some 1%N) (host_with 4) = Some w0 /\
    run [CallSchedule Normal (fun _ => Threw (user_exception "boom")) 0;
         StepWorker 0; StepWorker 0] w0 = Some w /\
    step (StepWorker 0) w = Some w' /\
    m_workers (pool w') !! 0%nat =
      Some {| joinable := true; pc := AtLoopTest |} /\
    future_result w' 0 = Some (Threw (user_exception "boom")).
Proof.
  eexists _, _.
  match goal with
  | |- exists w', ThreadPool _ _ = Some ?a /\ run _ _ = Some ?b /\ _ =>
      assert (ThreadPool (Some 1%N) (host_with 4) = Some a) as H0
        by (vm_compute; reflexivity);
      assert (run [CallSchedule Normal
                     (fun _ => Threw (user_exception "boom")) 0;
                   StepWorker 0; StepWorker 0] a = Some b) as H1
        by (vm_compute; reflexivity);
      destruct (raising_job_is_captured (Some 1%N) (host_with 4) a _ b 0
                  {| joinable := true;
                     pc := HoldsJob
                             (Some (RunPackagedTask 0
                                (fun _ => Threw (user_exception "boom")))) |}
                  0 (fun _ => Threw (user_exception "boom"))
                  H0 H1 eq_refl eq_refl)
        as (_ & w' & Hs & _ & Hpc & _ & _ & Hfut & _);
      exists w'; split; [exact H0|]; split; [exact H1|];
      split; [exact Hs|]; split; [exact Hpc | exact (Hfut _ eq_refl)]
  end.
Defined.

(** * Properties of whole runs *)

(** ** Relations kept by every step *)

(** A reflexive and transitive relation that every move from a sound world
    respects holds between the two ends of every run. *)
Lemma run_preorder (R : world -> world -> Prop) :
  (forall w, R w w) ->
  (forall w1 w2 w3, R w1 w2 -> R w2 w3 -> R w1 w3) ->
  (forall a w1 w2, sound w1 -> moves a w1 w2 -> R w1 w2) ->
  forall sched w w', sound w -> run sched w = Some w' -> R w w'.
Proof.
  intros Hrefl Htrans Hstep sched.
  induction sched as [|a sched IH]; intros w w' Hs Hrun; simpl in Hrun.
  - injection Hrun as <-. apply Hrefl.
  - destruct (step a w) as [w1|] eqn:Ha; [|discriminate Hrun].
    apply (Htrans w w1 w').
    + apply (Hstep a); [exact Hs|]. apply step_moves; [apply Hs | exact Ha].
    + apply IH; [by eapply step_sound | exact Hrun].
Qed.

Lemma reachable_sound arg hw w0 sched w :
  ThreadPool arg hw = Some w0 -> run sched w0 = Some w -> sound w.
Proof. intros Hc Hr. eapply run_sound; eauto using ThreadPool_sound. Qed.

(** How a move changes the pending tasks and the shared states: not at all,
    or a submission adds a new task without result, or a worker's call gives
    the held task its result. *)
Lemma moves_pending_change (a : action) (w w' : world) :
  moves a w w' -> pending_once w ->
  (pending_tasks (pool w') ≡ₚ pending_tasks (pool w) /\
   shared_states w' = shared_states w) \/
  (pending_tasks (pool w')
     ≡ₚ length (shared_states w) :: pending_tasks (pool w) /\
   shared_states w' = shared_states w ++ [None]) \/
  (exists t r,
     pending_tasks (pool w) ≡ₚ t :: pending_tasks (pool w') /\
     shared_states w !! t = Some None /\
     shared_states w' = <[t := Some r]> (shared_states w)).
Proof.
  intros Hmv Hp.
  destruct Hmv; try (left; split; reflexivity).
  - (* Schedule *)
    right. left. split; [|reflexivity]. simpl.
    unfold pending_tasks. simpl. rewrite queued_tasks_map_at. simpl.
    rewrite <- app_assoc. simpl. by rewrite <- Permutation_middle.
  - (* Shutdown: join *)
    left. simpl. by rewrite pending_put_joined.
  - (* worker: loop test *)
    left. simpl. split; [|reflexivity].
    destruct (pending_put_pc (pool w) i th
                (if m_running (pool w) then InWait else Finished) H)
      as (l1 & l2 & H1 & H2).
    rewrite H1, H2, H0. by destruct (m_running (pool w)).
  - (* worker: takes a job *)
    left. simpl. split; [|reflexivity].
    set (m := m_jobsByPriority (pool w)) in *.
    destruct (pending_put_pc (set_jobs (scan m).2 (pool w)) i th
                (HoldsJob (scan m).1) H) as (l1 & l2 & H1' & H2').
    rewrite H2'. simpl.
    unfold pending_tasks in H1'. simpl in H1'.
    apply app_inv_head in H1'. rewrite H0 in H1'. simpl in H1'.
    unfold pending_tasks. fold m. rewrite H1', (queued_tasks_scan m).
    solve_Permutation.
  - (* worker: empty job *)
    left. simpl. split; [|reflexivity].
    destruct (pending_put_pc (pool w) i th AtLoopTest H)
      as (l1 & l2 & H1 & H2).
    by rewrite H1, H2, H0.
  - (* worker: job returned *)
    right. right. exists t, (f tt). simpl.
    split; [|split; [done | reflexivity]].
    destruct (pending_put_pc (pool w) i th AtLoopTest H)
      as (l1 & l2 & H1' & H2').
    rewrite H0 in H1'. simpl in H1', H2'.
    rewrite H1', H2'. solve_Permutation.
  - (* worker: job threw: the held task has no result, so this cannot be *)
    exfalso. pose proof (holder_task_fresh w i th t f Hp H H0) as Hfresh.
    destruct H1 as [[Hnone _] | [[o Ho] _]]; congruence.
Qed.

Lemma run_invariant (P : world -> Prop) :
  (forall a w1 w2, sound w1 -> P w1 -> moves a w1 w2 -> P w2) ->
  forall sched w w', sound w -> P w -> run sched w = Some w' -> P w'.
Proof.
  intros Hstep sched w w' Hs Hw Hrun. revert Hw.
  apply (run_preorder (fun w1 w2 => P w1 -> P w2)) with sched;
    [done | by eauto | by eauto | exact Hs | exact Hrun].
Qed.

(** ** Results are written once *)

Lemma moves_result_kept (a : action) (w w' : world) t o :
  moves a w w' -> pending_once w ->
  shared_states w !! t = Some (Some o) ->
  shared_states w' !! t = Some (Some o).
Proof.
  intros Hmv Hp Ht.
  destruct (moves_pending_change a w w' Hmv Hp)
    as [[_ ->] | [[_ ->] | (t0 & r & _ & Ht0 & ->)]].
  - exact Ht.
  - rewrite lookup_app_l; [exact Ht | by eapply lookup_lt_Some].
  - rewrite list_lookup_insert_ne; [exact Ht | congruence].
Qed.

(** Property X1.  Once the future of a task is ready, it delivers the same value
    or exception in every later state of the pool: no step overwrites or
    clears a stored result. *)
Theorem future_ready_forever arg hw (w0 : world) (sched : list action)
  (w : world) (later : list action) (w' : world) (t : nat) (o : outcome) :
  ThreadPool arg hw = Some w0 ->
  run sched w0 = Some w ->
  run later w = Some w' ->
  future_result w t = Some o ->
  future_result w' t = Some o.
Proof.
  intros Hctor Hrun Hlater Hready.
  pose proof (reachable_sound _ _ _ _ _ Hctor Hrun) as Hs.
  assert (shared_states w !! t = Some (Some o)) as Ht.
  { unfold future_result in Hready.
    destruct (shared_states w !! t) as [r|]; [by subst r | discriminate]. }
  enough (shared_states w' !! t = Some (Some o)) as Ht'
    by (unfold future_result; by rewrite Ht').
  revert Ht.
  apply (run_preorder
           (fun w1 w2 => shared_states w1 !! t = Some (Some o) ->
                         shared_states w2 !! t = Some (Some o)))
    with later; [done | by eauto | | exact Hs | exact Hlater].
  intros a w1 w2 (_ & Hp & _) Hmv. by eapply moves_result_kept.
Qed.

Lemma future_ready_forever_witness :
  exists w0 w w',
    ThreadPool (Some 1%N) (host_with 4) = Some w0 /\
    run [CallSchedule Normal (fun _ => Returned 12) 0;
         StepWorker 0; StepWorker 0; StepWorker 0] w0 = Some w /\
    run [CallSchedule Critical (fun _ => Returned 7) 0;
         StepWorker 0; StepWorker 0; StepWorker 0; StepShutdown] w
      = Some w' /\
    future_result w 0 = Some (Returned 12) /\
    future_result w' 0 = Some (Returned 12).
Proof.
  eexists _, _, _.
  match goal with
  | |- ThreadPool _ _ = Some ?a /\ run ?s1 _ = Some ?b /\
       run ?s2 _ = Some ?c /\ _ =>
      assert (ThreadPool (Some 1%N) (host_with 4) = Some a) as H0
        by (vm_compute; reflexivity);
      assert (run s1 a = Some b) as H1 by (vm_compute; reflexivity);
      assert (run s2 b = Some c) as H2 by (vm_compute; reflexivity);
      split; [exact H0|]; split; [exact H1|]; split; [exact H2|];
      split; [reflexivity|];
      apply (future_ready_forever (Some 1%N) (host_with 4) a s1 b s2 c 0 (Returned 12)
               H0 H1 H2); reflexivity
  end.
Defined.

(** ** Every task is pending exactly once until it has its result *)

Lemma moves_accounted (a : action) (w w' : world) :
  moves a w w' -> pending_once w ->
  (forall t, shared_states w !! t = Some None -> t ∈ pending_tasks (pool w)) ->
  forall t, shared_states w' !! t = Some None -> t ∈ pending_tasks (pool w').
Proof.
  intros Hmv Hp Hacc t Ht.
  destruct (moves_pending_change a w w' Hmv Hp)
    as [[Hperm Hsh] | [[Hperm Hsh] | (t0 & r & Hperm & Ht0 & Hsh)]];
    rewrite Hsh in Ht.
  - rewrite Hperm. by apply Hacc.
  - rewrite Hperm. apply lookup_snoc_Some in Ht as [[_ Ht] | [-> _]].
    + right. by apply Hacc.
    + left.
  - destruct (decide (t = t0)) as [->|Hne].
    + rewrite list_lookup_insert_eq in Ht by (by eapply lookup_lt_Some).
      discriminate Ht.
    + rewrite list_lookup_insert_ne in Ht by done.
      apply Hacc in Ht. rewrite Hperm in Ht.
      apply elem_of_cons in Ht as [?|?]; done.
Qed.

Lemma reachable_accounted arg hw w0 sched w t :
  ThreadPool arg hw = Some w0 -> run sched w0 = Some w ->
  shared_states w !! t = Some None -> t ∈ pending_tasks (pool w).
Proof.
  intros Hctor Hrun. revert t.
  apply (run_invariant
           (fun w => forall t, shared_states w !! t = Some None ->
                               t ∈ pending_tasks (pool w)))
    with sched w0; [| by eapply ThreadPool_sound | | exact Hrun].
  - intros a w1 w2 (_ & Hp & _) Hacc Hmv. by eapply moves_accounted.
  - unfold ThreadPool in Hctor.
    destruct (Init _ _ new_impl) as [s|]; [|discriminate].
    injection Hctor as <-. simpl. intros t Ht. by destruct t.
Qed.

(** Property X2.  In every state of the pool, the tasks whose job is queued or
    in the hands of a worker are exactly the tasks handed out by [Schedule]
    that have no result yet, and none of them is pending twice: until a job
    has been run it is not lost, and it is never there to be run a second
    time. *)
Theorem pending_iff_no_result arg hw (w0 : world) (sched : list action)
  (w : world) :
  ThreadPool arg hw = Some w0 ->
  run sched w0 = Some w ->
  NoDup (pending_tasks (pool w)) /\
  forall t, t ∈ pending_tasks (pool w) <-> shared_states w !! t = Some None.
Proof.
  intros Hctor Hrun.
  pose proof (reachable_sound _ _ _ _ _ Hctor Hrun) as (_ & [Hnd Hlook] & _).
  split; [exact Hnd|]. intros t. split; [apply Hlook|].
  by eapply reachable_accounted.
Qed.

Lemma pending_iff_no_result_witness :
  exists w0 w,
    ThreadPool (Some 1%N) (host_with 4) = Some w0 /\
    run [CallSchedule Normal (fun _ => Returned 1) 0;
         CallSchedule High (fun _ => Returned 2) 0;
         CallSchedule Normal (fun _ => Returned 3) 0;
         StepWorker 0; StepWorker 0; StepWorker 0;
         StepWorker 0; StepWorker 0] w0 = Some w /\
    pending_tasks (pool w) = [2%nat; 0%nat] /\
    shared_states w = [None; Some (Returned 2); None] /\
    NoDup (pending_tasks (pool w)).
Proof.
  eexists _, _.
  match goal with
  | |- ThreadPool _ _ = Some ?a /\ run ?s1 _ = Some ?b /\ _ =>
      assert (ThreadPool (Some 1%N) (host_with 4) = Some a) as H0
        by (vm_compute; reflexivity);
      assert (run s1 a = Some b) as H1 by (vm_compute; reflexivity);
      split; [exact H0|]; split; [exact H1|];
      split; [reflexivity|]; split; [reflexivity|];
      exact (proj1 (pending_iff_no_result (Some 1%N) (host_with 4) a s1 b H0 H1))
  end.
Defined.

(** ** The worker set *)

Lemma put_pc_length i p s :
  length (m_workers (put_pc i p s)) = length (m_workers s).
Proof. unfold put_pc. simpl. apply length_alter. Qed.

Lemma put_joined_length k s :
  length (m_workers (put_joined k s)) = length (m_workers s).
Proof. unfold put_joined. simpl. apply length_alter. Qed.

Lemma moves_workers_length (a : action) (w w' : world) :
  moves a w w' ->
  length (m_workers (pool w')) = length (m_workers (pool w)).
Proof.
  intros Hmv. destruct Hmv; simpl; rewrite ?length_alter; reflexivity.
Qed.

Lemma run_workers_length (sched : list action) (w w' : world) :
  sound w -> run sched w = Some w' ->
  length (m_workers (pool w')) = length (m_workers (pool w)).
Proof.
  intros Hs Hrun.
  apply (run_preorder
           (fun w1 w2 => length (m_workers (pool w2))
                         = length (m_workers (pool w1)))) with sched;
    [done | by intros ??? -> | | done | done].
  intros a w1 w2 _ Hmv. by eapply moves_workers_length.
Qed.

Lemma reachable_workers_length arg hw w0 sched w :
  ThreadPool arg hw = Some w0 -> run sched w0 = Some w ->
  length (m_workers (pool w)) = N.to_nat (requested arg hw).
Proof.
  intros Hctor Hrun.
  rewrite (run_workers_length sched w0 w);
    [| by eapply ThreadPool_sound | done].
  rewrite (ThreadPool_workers _ _ _ Hctor). apply length_replicate.
Qed.

Lemma put_joined_lookup k s j th' :
  m_workers (put_joined k s) !! j = Some th' ->
  exists th, m_workers s !! j = Some th /\ pc th' = pc th /\
             (joinable th = false -> joinable th' = false).
Proof.
  unfold put_joined. simpl. intros H. destruct (decide (k = j)) as [->|Hne].
  - rewrite list_lookup_alter_eq in H.
    destruct (m_workers s !! j) as [th|]; [|discriminate H].
    injection H as <-. eauto.
  - rewrite list_lookup_alter_ne in H by done. eauto.
Qed.

Lemma moves_joined_kept (a : action) (w w' : world) i th' :
  moves a w w' ->
  m_workers (pool w') !! i = Some th' ->
  exists th, m_workers (pool w) !! i = Some th /\
             (joinable th = false -> joinable th' = false).
Proof.
  intros Hmv Hth'. destruct Hmv; simpl in Hth';
    try (by eauto);
    try (apply put_pc_joinable in Hth' as (th0 & ? & Hj); exists th0;
         split; [done | congruence]).
  apply put_joined_lookup in Hth' as (th0 & ? & _ & ?). eauto.
Qed.

(** Property X3.  The worker set is fixed by the constructor: in every state of
    the pool [m_workers] holds exactly the requested number of threads, and a
    thread that is no longer joinable in some state is not joinable in any
    later one. *)
Theorem worker_set_fixed arg hw (w0 : world) (sched : list action)
  (w : world) (later : list action) (w' : world) :
  ThreadPool arg hw = Some w0 ->
  run sched w0 = Some w ->
  run later w = Some w' ->
  length (m_workers (pool w)) = N.to_nat (requested arg hw) /\
  length (m_workers (pool w')) = N.to_nat (requested arg hw) /\
  forall i th th',
    m_workers (pool w) !! i = Some th ->
    m_workers (pool w') !! i = Some th' ->
    joinable th = false -> joinable th' = false.
Proof.
  intros Hctor Hrun Hlater.
  pose proof (reachable_sound _ _ _ _ _ Hctor Hrun) as Hs.
  split; [by eapply reachable_workers_length|]. split.
  - rewrite (run_workers_length later w w' Hs Hlater).
    by eapply reachable_workers_length.
  - intros i th th' Hth Hth' Hj.
    assert (forall th2, m_workers (pool w') !! i = Some th2 ->
              exists th1, m_workers (pool w) !! i = Some th1 /\
                (joinable th1 = false -> joinable th2 = false)) as Hrel.
    { apply (run_preorder
               (fun w1 w2 =>
                  forall th2, m_workers (pool w2) !! i = Some th2 ->
                    exists th1, m_workers (pool w1) !! i = Some th1 /\
                      (joinable th1 = false -> joinable th2 = false)))
        with later; [by eauto | | | exact Hs | exact Hlater].
      - intros w1 w2 w3 H12 H23 th3 H3.
        destruct (H23 th3 H3) as (th2 & H2 & Hj2).
        destruct (H12 th2 H2) as (th1 & H1 & Hj1). eauto.
      - intros a w1 w2 _ Hmv th2 H2. by eapply moves_joined_kept. }
    destruct (Hrel th' Hth') as (th1 & H1 & H2).
    rewrite Hth in H1. injection H1 as <-. by apply H2.
Qed.

Lemma worker_set_fixed_witness :
  exists w0 w w',
    ThreadPool (Some 2%N) (host_with 4) = Some w0 /\
    run [StepShutdown; StepShutdown; StepWorker 0; StepShutdown] w0 = Some w /\
    run [CallSchedule Normal (fun _ => Returned 1) 0; StepWorker 1] w
      = Some w' /\
    length (m_workers (pool w')) = 2%nat /\
    (joinable <$> m_workers (pool w') !! 0%nat) = Some false.
Proof.
  eexists _, _, _.
  match goal with
  | |- ThreadPool _ _ = Some ?a /\ run ?s1 _ = Some ?b /\
       run ?s2 _ = Some ?c /\ _ =>
      assert (ThreadPool (Some 2%N) (host_with 4) = Some a) as H0
        by (vm_compute; reflexivity);
      assert (run s1 a = Some b) as H1 by (vm_compute; reflexivity);
      assert (run s2 b = Some c) as H2 by (vm_compute; reflexivity);
      destruct (worker_set_fixed (Some 2%N) (host_with 4) a s1 b s2 c H0 H1 H2)
        as (_ & Hlen & _);
      split; [exact H0|]; split; [exact H1|]; split; [exact H2|];
      split; [exact Hlen | reflexivity]
  end.
Defined.

(** ** A pool whose workers have all returned *)

Lemma moves_all_finished (a : action) (w w' : world) :
  moves a w w' -> all_finished (pool w) -> only_submissions w w'.
Proof.
  intros Hmv Hfin.
  assert (forall sh sd ev, only_submissions w (mk_world (pool w) sh sd ev) <->
            exists k, sh = shared_states w ++ replicate k None) as Hsame.
  { intros sh sd ev. unfold only_submissions. simpl. split; [by intros (_&?&_)|].
    intros Hk. split; [done|]. split; [done|].
    intros qc qh qn ->. exists [], [], []. by rewrite !app_nil_r. }
  assert (forall i th p, m_workers (pool w) !! i = Some th ->
            pc th = p -> p <> Finished -> False) as Hno.
  { intros i th p Hth Hpc Hp. rewrite (Hfin i th Hth) in Hpc. congruence. }
  destruct Hmv;
    try (exfalso; by eapply Hno);
    try (apply Hsame; exists O; by rewrite app_nil_r).
  - (* Schedule *)
    split; [exact Hfin|]. split; [by exists 1%nat|]. simpl.
    intros qc qh qn ->. rewrite map_at_three_queues.
    destruct priority.
    + eexists [], [], [_]. by rewrite !app_nil_r.
    + eexists [], [_], []. by rewrite !app_nil_r.
    + eexists [_], [], []. by rewrite !app_nil_r.
  - (* Shutdown: store to m_running *)
    split; [exact Hfin|]. split; [exists O; by rewrite app_nil_r|]. simpl.
    intros qc qh qn ->. exists [], [], []. by rewrite !app_nil_r.
  - (* Shutdown: notify_all *)
    split; [exact Hfin|]. split; [exists O; by rewrite app_nil_r|]. simpl.
    intros qc qh qn ->. exists [], [], []. by rewrite !app_nil_r.
  - (* Shutdown: join *)
    split; [|split; [exists O; by rewrite app_nil_r|]]; simpl.
    + intros j th' Hth'.
      apply put_joined_lookup in Hth' as (th0 & Hth0 & -> & _).
      by eapply Hfin.
    + intros qc qh qn ->. exists [], [], []. by rewrite !app_nil_r.
  - (* spurious wake-up *)
    split; [exact Hfin|]. split; [exists O; by rewrite app_nil_r|]. simpl.
    intros qc qh qn ->. exists [], [], []. by rewrite !app_nil_r.
Qed.

Lemma run_all_finished (sched : list action) (w w' : world) :
  sound w -> has_three_queues (pool w) -> all_finished (pool w) ->
  run sched w = Some w' -> only_submissions w w'.
Proof.
  intros Hs H3 Hfin Hrun.
  enough (has_three_queues (pool w) -> all_finished (pool w) ->
          only_submissions w w') by auto.
  apply (run_preorder
           (fun w1 w2 => has_three_queues (pool w1) -> all_finished (pool w1) ->
                         only_submissions w1 w2))
    with sched; [| | | exact Hs | exact Hrun].
  - intros v _ Hv. split; [exact Hv|].
    split; [exists O; by rewrite app_nil_r|].
    intros qc qh qn ->. exists [], [], []. by rewrite !app_nil_r.
  - intros w1 w2 w3 H12 H23 (qc & qh & qn & Hm1) Hf1.
    destruct (H12 (ex_intro _ qc (ex_intro _ qh (ex_intro _ qn Hm1))) Hf1)
      as (Hf2 & (k2 & Hsh2) & Hq2).
    destruct (Hq2 qc qh qn Hm1) as (ac & ah & an & Hm2).
    destruct (H23 (ex_intro _ _ (ex_intro _ _ (ex_intro _ _ Hm2))) Hf2)
      as (Hf3 & (k3 & Hsh3) & Hq3).
    split; [exact Hf3|]. split.
    + exists (k2 + k3)%nat.
      by rewrite Hsh3, Hsh2, <- app_assoc, replicate_add.
    + intros qc' qh' qn' Hm1'. rewrite Hm1 in Hm1'.
      injection Hm1' as <- <- <-.
      destruct (Hq3 _ _ _ Hm2) as (bc & bh & bn & Hm3).
      exists (ac ++ bc), (ah ++ bh), (an ++ bn). by rewrite Hm3, !app_assoc.
  - intros a w1 w2 _ Hmv _ Hf1. by eapply moves_all_finished.
Qed.

Lemma future_result_extended (w w' : world) k t :
  shared_states w' = shared_states w ++ replicate k None ->
  future_result w' t = future_result w t.
Proof.
  intros Hsh. unfold future_result. rewrite Hsh, lookup_app.
  destruct (shared_states w !! t) as [r|]; [reflexivity|].
  destruct (replicate k None !! _) as [r|] eqn:Hr; [|reflexivity].
  by apply lookup_replicate in Hr as [-> _].
Qed.

Lemma reachable_three_queues arg hw w0 sched w :
  ThreadPool arg hw = Some w0 -> run sched w0 = Some w ->
  has_three_queues (pool w).
Proof.
  intros Hctor Hrun. eapply run_three_queues; [exact Hrun|].
  unfold ThreadPool in Hctor.
  destruct (Init _ _ new_impl) as [s|] eqn:HInit; [|discriminate].
  injection Hctor as <-. exists [], [], []. simpl.
  exact (Init_jobs _ _ _ HInit).
Qed.

(** Property X4.  After a [Shutdown] call has returned the pool still accepts
    submissions but never runs a job again: whatever happens afterwards, every
    worker stays finished, no future changes (the jobs left in the queues and
    the jobs submitted later never get a result), the queues only grow at
    their back, and [Schedule] still returns a future. *)
Theorem nothing_runs_after_Shutdown arg hw (w0 : world) (sched : list action)
  (w : world) (later : list action) (w' : world) :
  ThreadPool arg hw = Some w0 ->
  run (sched ++ [StepShutdown]) w0 = Some w ->
  in_shutdown w = NotInShutdown ->
  run later w = Some w' ->
  all_finished (pool w') /\
  (forall t, future_result w' t = future_result w t) /\
  (forall qc qh qn,
     m_jobsByPriority (pool w) = three_queues qc qh qn ->
     exists ac ah an,
       m_jobsByPriority (pool w')
       = three_queues (qc ++ ac) (qh ++ ah) (qn ++ an)) /\
  (forall priority f pick,
     exists t w'',
       Schedule priority f pick w' = Some (t, w'') /\
       future_result w'' t = None).
Proof.
  intros Hctor Hrun Hret Hlater.
  pose proof (reachable_sound _ _ _ _ _ Hctor Hrun) as Hs.
  pose proof (reachable_three_queues _ _ _ _ _ Hctor Hrun) as H3.
  assert (all_finished (pool w)) as Hfin.
  { apply run_app in Hrun as (w1 & Hrun1 & Hlast). cbn [run] in Hlast.
    destruct (step StepShutdown w1) as [w2|] eqn:Hstep; [|discriminate Hlast].
    injection Hlast as ->.
    pose proof (reachable_sound _ _ _ _ _ Hctor Hrun1) as (Hc1 & _).
    destruct (Shutdown_return_all_joined w1 w Hc1 Hstep Hret)
      as (_ & _ & _ & Hall).
    intros i th Hth. by destruct (Hall i th Hth). }
  destruct (run_all_finished later w w' Hs H3 Hfin Hlater)
    as (Hfin' & (k & Hsh) & Hq).
  split; [exact Hfin'|].
  split; [intros t; by eapply future_result_extended|].
  split; [exact Hq|].
  intros priority f pick.
  assert (sound w') as (Hc' & _) by (by eapply run_sound).
  destruct (Schedule_free priority f pick w') as (w'' & Hsched & _ & Hnone);
    [apply Hc' | eauto].
Qed.

Lemma nothing_runs_after_Shutdown_witness :
  exists w0 w w',
    ThreadPool (Some 1%N) (host_with 4) = Some w0 /\
    run ([CallSchedule Normal (fun _ => Returned 1) 0;
          CallSchedule Normal (fun _ => Returned 2) 0;
          StepWorker 0; StepShutdown; StepShutdown;
          StepWorker 0; StepWorker 0; StepWorker 0; StepShutdown]
         ++ [StepShutdown]) w0 = Some w /\
    run [CallSchedule Critical (fun _ => Returned 3) 0] w = Some w' /\
    future_result w' 0 = Some (Returned 1) /\
    future_result w' 1 = None /\
    future_result w' 2 = None /\
    all_finished (pool w').
Proof.
  eexists _, _, _.
  match goal with
  | |- ThreadPool _ _ = Some ?a /\ run (?s1 ++ _) _ = Some ?b /\
       run ?s2 _ = Some ?c /\ _ =>
      assert (ThreadPool (Some 1%N) (host_with 4) = Some a) as H0
        by (vm_compute; reflexivity);
      assert (run (s1 ++ [StepShutdown]) a = Some b) as H1
        by (vm_compute; reflexivity);
      assert (run s2 b = Some c) as H2 by (vm_compute; reflexivity);
      destruct (nothing_runs_after_Shutdown (Some 1%N) (host_with 4) a s1 b s2 c
                  H0 H1 eq_refl H2) as (Hfin & _);
      split; [exact H0|]; split; [exact H1|]; split; [exact H2|];
      split; [reflexivity|]; split; [reflexivity|];
      split; [reflexivity | exact Hfin]
  end.
Defined.

(** Property X5.  A pool constructed for zero threads accepts every submission
    and runs none: in every state it reaches, no future is ready, and the job
    of every task handed out by [Schedule] is still in its queue. *)
Theorem zero_workers_run_nothing arg hw (w0 : world) (sched : list action)
  (w : world) :
  requested arg hw = 0%N ->
  ThreadPool arg hw = Some w0 ->
  run sched w0 = Some w ->
  m_workers (pool w) = [] /\
  (forall t, future_result w t = None) /\
  (forall t, (t < length (shared_states w))%nat ->
     t ∈ queued_tasks (m_jobsByPriority (pool w))).
Proof.
  intros Hzero Hctor Hrun.
  pose proof (ThreadPool_sound _ _ _ Hctor) as Hs0.
  pose proof (ThreadPool_workers _ _ _ Hctor) as Hws0.
  rewrite Hzero in Hws0. simpl in Hws0.
  assert (all_finished (pool w0)) as Hfin0.
  { intros i th Hth. by rewrite Hws0 in Hth. }
  assert (has_three_queues (pool w0)) as H30
    by (by eapply (reachable_three_queues arg hw w0 [] w0)).
  destruct (run_all_finished sched w0 w Hs0 H30 Hfin0 Hrun)
    as (Hfin & (k & Hsh) & _).
  assert (shared_states w0 = []) as Hsh0.
  { unfold ThreadPool in Hctor.
    destruct (Init _ _ new_impl); [|discriminate]. by injection Hctor as <-. }
  rewrite Hsh0 in Hsh. simpl in Hsh.
  assert (m_workers (pool w) = []) as Hws.
  { apply length_zero_iff_nil.
    rewrite (reachable_workers_length _ _ _ _ _ Hctor Hrun). by rewrite Hzero. }
  split; [exact Hws|]. split.
  - intros t. unfold future_result. rewrite Hsh.
    destruct (replicate k None !! t) as [r|] eqn:Hr; [|reflexivity].
    by apply lookup_replicate in Hr as [-> _].
  - intros t Ht.
    assert (shared_states w !! t = Some None) as Hnone.
    { rewrite Hsh. apply lookup_replicate. split; [done|].
      by rewrite Hsh, length_replicate in Ht. }
    assert (t ∈ pending_tasks (pool w)) as Hin
      by (by eapply reachable_accounted).
    unfold pending_tasks in Hin. rewrite Hws in Hin.
    by rewrite app_nil_r in Hin.
Qed.

Lemma zero_workers_run_nothing_witness :
  exists w0 w,
    ThreadPool None (host_with 0) = Some w0 /\
    run [CallSchedule Normal (fun _ => Returned 12) 0;
         CallSchedule Critical (fun _ => Returned 5) 0] w0 = Some w /\
    future_result w 0 = None /\
    future_result w 1 = None /\
    queued_tasks (m_jobsByPriority (pool w)) = [1%nat; 0%nat].
Proof.
  eexists _, _.
  match goal with
  | |- ThreadPool _ _ = Some ?a /\ run ?s1 _ = Some ?b /\ _ =>
      assert (ThreadPool None (host_with 0) = Some a) as H0
        by (vm_compute; reflexivity);
      assert (run s1 a = Some b) as H1 by (vm_compute; reflexivity);
      destruct (zero_workers_run_nothing None (host_with 0) a s1 b eq_refl H0 H1)
        as (_ & Hnone & _);
      split; [exact H0|]; split; [exact H1|];
      split; [exact (Hnone 0%nat)|]; split; [exact (Hnone 1%nat)|];
      reflexivity
  end.
Defined.

(** ** Jobs run after [m_running] is false *)

Lemma completed_app (l1 l2 : list (option outcome)) :
  completed (l1 ++ l2) = (completed l1 + completed l2)%nat.
Proof.
  induction l1 as [|[o|] l1 IH]; simpl; [done | by rewrite IH | exact IH].
Qed.

Lemma completed_insert (sh : list (option outcome)) t r :
  sh !! t = Some None ->
  completed (<[t := Some r]> sh) = S (completed sh).
Proof.
  revert t. induction sh as [|x sh IH]; intros t Ht; [done|].
  destruct t as [|t]; simpl in *.
  - by injection Ht as ->.
  - destruct x; simpl; by rewrite (IH t Ht).
Qed.

Lemma owed_alter (ws : list thread) i th (g : thread -> thread) :
  ws !! i = Some th ->
  (owed (alter g i ws) + owes (pc th) = owed ws + owes (pc (g th)))%nat.
Proof.
  unfold owed, alter. revert i.
  induction ws as [|th0 ws IH]; intros i Hth; [done|].
  destruct i as [|i]; simpl in *.
  - injection Hth as ->. lia.
  - specialize (IH i Hth). lia.
Qed.

Lemma owed_le_length (ws : list thread) : (owed ws <= length ws)%nat.
Proof.
  unfold owed. induction ws as [|th ws IH]; simpl; [lia|].
  assert (owes (pc th) <= 1)%nat
    by (destruct (pc th) as [| |[?|]| |]; simpl; lia).
  lia.
Qed.

(** With [m_running] false, no move raises the number of completed tasks plus
    what the workers may still add to it. *)
Lemma moves_stopped (a : action) (w w' : world) :
  moves a w w' -> m_running (pool w) = false ->
  m_running (pool w') = false /\
  (completed (shared_states w') + owed (m_workers (pool w'))
   <= completed (shared_states w) + owed (m_workers (pool w)))%nat.
Proof.
  intros Hmv Hr.
  assert (forall i th p sh,
            m_workers (pool w) !! i = Some th ->
            (completed sh + owes p
             <= completed (shared_states w) + owes (pc th))%nat ->
            (completed sh + owed (m_workers (put_pc i p (pool w)))
             <= completed (shared_states w) + owed (m_workers (pool w)))%nat)
    as Hput.
  { intros i th p sh Hth Hle. unfold put_pc. simpl.
    pose proof (owed_alter (m_workers (pool w)) i th
                  (fun th => {| joinable := joinable th; pc := p |}) Hth)
      as Halter.
    simpl in Halter. lia. }
  destruct Hmv; simpl; (split; [done|]); try lia.
  - (* Schedule *)
    rewrite completed_app. simpl. lia.
  - (* Shutdown: join *)
    pose proof (owed_alter (m_workers (pool w)) k th
                  (fun th => {| joinable := false; pc := pc th |}) H0)
      as Halter.
    simpl in Halter. lia.
  - (* worker: loop test *)
    apply (Hput i th); [done|]. rewrite Hr, H0. simpl. lia.
  - (* worker: takes a job *)
    apply (Hput i th); [done|]. rewrite H0.
    destruct (scan (m_jobsByPriority (pool w))).1; simpl; lia.
  - (* worker: empty job *)
    apply (Hput i th); [done|]. rewrite H0. simpl. lia.
  - (* worker: job returned *)
    apply (Hput i th); [done|]. rewrite H0, (completed_insert _ _ _ H1).
    simpl. lia.
  - (* worker: job threw *)
    apply (Hput i th); [done|]. rewrite H0. simpl. lia.
Qed.

(** Property X6.  From a state in which [m_running] is false, the pool completes
    at most one more job for each worker, however many jobs are queued: a
    worker leaves the loop at its next loop test, so it can only finish the
    job it holds or take and run one last job. *)
Theorem at_most_one_job_per_worker_after_stop arg hw (w0 : world)
  (sched : list action) (w : world) (later : list action) (w' : world) :
  ThreadPool arg hw = Some w0 ->
  run sched w0 = Some w ->
  m_running (pool w) = false ->
  run later w = Some w' ->
  (completed (shared_states w')
   <= completed (shared_states w) + owed (m_workers (pool w)))%nat /\
  (completed (shared_states w')
   <= completed (shared_states w) + length (m_workers (pool w)))%nat.
Proof.
  intros Hctor Hrun Hstop Hlater.
  pose proof (reachable_sound _ _ _ _ _ Hctor Hrun) as Hs.
  assert (m_running (pool w') = false /\
          (completed (shared_states w') + owed (m_workers (pool w'))
           <= completed (shared_states w) + owed (m_workers (pool w)))%nat)
    as [_ Hle].
  { revert Hstop.
    apply (run_preorder
             (fun w1 w2 =>
                m_running (pool w1) = false ->
                m_running (pool w2) = false /\
                (completed (shared_states w2) + owed (m_workers (pool w2))
                 <= completed (shared_states w1)
                    + owed (m_workers (pool w1)))%nat))
      with later; [| | | exact Hs | exact Hlater].
    - intros v Hv. split; [done | lia].
    - intros w1 w2 w3 H12 H23 H1. destruct (H12 H1) as [H2 Hle2].
      destruct (H23 H2) as [H3 Hle3]. split; [done | lia].
    - intros a w1 w2 _ Hmv H1. by apply (moves_stopped a). }
  pose proof (owed_le_length (m_workers (pool w))). lia.
Qed.

Lemma at_most_one_job_per_worker_after_stop_witness :
  exists w0 w w',
    ThreadPool (Some 1%N) (host_with 4) = Some w0 /\
    run [CallSchedule Normal (fun _ => Returned 1) 0;
         CallSchedule Normal (fun _ => Returned 2) 0;
         CallSchedule Normal (fun _ => Returned 3) 0;
         StepWorker 0; StepShutdown] w0 = Some w /\
    run [StepWorker 0; StepWorker 0; StepWorker 0] w = Some w' /\
    completed (shared_states w) = 0%nat /\
    (completed (shared_states w') <= 1)%nat /\
    m_workers (pool w') = [{| joinable := true; pc := Finished |}].
Proof.
  eexists _, _, _.
  match goal with
  | |- ThreadPool _ _ = Some ?a /\ run ?s1 _ = Some ?b /\
       run ?s2 _ = Some ?c /\ _ =>
      assert (ThreadPool (Some 1%N) (host_with 4) = Some a) as H0
        by (vm_compute; reflexivity);
      assert (run s1 a = Some b) as H1 by (vm_compute; reflexivity);
      assert (run s2 b = Some c) as H2 by (vm_compute; reflexivity);
      destruct (at_most_one_job_per_worker_after_stop (Some 1%N) (host_with 4)
                  a s1 b s2 c H0 H1 eq_refl H2) as (_ & Hle);
      split; [exact H0|]; split; [exact H1|]; split; [exact H2|];
      split; [reflexivity|]; split; [exact Hle | reflexivity]
  end.
Defined.

(** ** A queued job never finds every worker asleep *)

Lemma NoDup_delete_lookup (l : list nat) k i :
  NoDup l -> l !! k = Some i -> i ∉ delete k l.
Proof.
  intros Hnd Hk. rewrite delete_take_drop.
  rewrite <- (take_drop_middle l k i Hk) in Hnd.
  apply NoDup_app in Hnd as (_ & Hdisj & Hnd).
  apply NoDup_cons in Hnd as [Hdrop _].
  intros Hin. apply elem_of_app in Hin as [Hin|Hin]; [|done].
  apply (Hdisj i Hin). left.
Qed.

Lemma some_awake_same (s s' : impl) :
  length (m_workers s') = length (m_workers s) ->
  m_cvSleepCtrl s' = m_cvSleepCtrl s ->
  some_awake s -> some_awake s'.
Proof. intros Hl Hc (i & Hi & Hni). exists i. by rewrite Hl, Hc. Qed.

Lemma first_worker_awake (s : impl) :
  m_workers s <> [] -> m_cvSleepCtrl s = [] -> some_awake s.
Proof.
  intros Hne Hc. exists O. rewrite Hc. split; [|apply not_elem_of_nil].
  destruct (m_workers s); [done | simpl; lia].
Qed.

Lemma wakeful_put_pc (s : impl) i th p :
  m_workers s !! i = Some th ->
  (m_running s = true -> p <> Finished) ->
  wakeful s -> wakeful (put_pc i p s).
Proof.
  intros Hth Hp (Hnd & Hjob & Hlive). split; [exact Hnd|]. split.
  - intros Hq Hne. apply (some_awake_same s); [apply put_pc_length | done|].
    apply Hjob; [exact Hq|]. intros Hnil. by rewrite Hnil in Hth.
  - intros Hr j th' Hlook. destruct (decide (i = j)) as [->|Hij].
    + rewrite (put_pc_lookup _ _ _ _ Hth) in Hlook. injection Hlook as <-.
      simpl. by apply Hp.
    + rewrite put_pc_lookup_ne in Hlook by done. by eapply Hlive.
Qed.

Lemma moves_wakeful (a : action) (w w' : world) :
  moves a w w' -> consistent w -> wakeful (pool w) -> wakeful (pool w').
Proof.
  intros Hmv (_ & Hpark & _ & Hsd) Hw. pose proof Hw as (Hnd & Hjob & Hlive).
  destruct Hmv; simpl.
  - (* Schedule *)
    split; [|split; [|exact Hlive]].
    + simpl. eapply sublist_NoDup; [exact Hnd | apply sublist_delete].
    + simpl. intros _ Hne.
      destruct (m_cvSleepCtrl (pool w) !! k) as [i|] eqn:Hk.
      * exists i. simpl. split.
        -- destruct (Hpark i) as (th & Hth & _);
             [by eapply list_elem_of_lookup_2|].
           by eapply lookup_lt_Some.
        -- by apply NoDup_delete_lookup.
      * apply first_worker_awake; [exact Hne|]. simpl.
        destruct (m_cvSleepCtrl (pool w)) as [|i c] eqn:Hc; [done|].
        apply lookup_ge_None in Hk. exfalso.
        pose proof (Nat.mod_upper_bound pick (length (i :: c))) as Hb.
        subst k. simpl in *. lia.
  - (* Shutdown: store to m_running *)
    split; [exact Hnd|]. split; [exact Hjob|]. simpl. discriminate.
  - (* Shutdown: notify_all *)
    split; [apply NoDup_nil_2|]. split; [|exact Hlive].
    intros _ Hne. by apply first_worker_awake.
  - (* Shutdown: join *)
    split; [exact Hnd|]. split.
    + intros Hq Hne.
      apply (some_awake_same (pool w)); [apply put_joined_length | done|].
      apply Hjob; [exact Hq|]. intros Hnil. by rewrite Hnil in H0.
    + intros Hr j th' Hlook.
      apply put_joined_lookup in Hlook as (th0 & Hth0 & -> & _).
      by eapply Hlive.
  - exact Hw.
  - exact Hw.
  - (* worker: loop test *)
    apply (wakeful_put_pc _ i th); [done | | exact Hw].
    by intros ->.
  - (* worker: takes a job *)
    split; [exact Hnd|]. split.
    + intros _ _. exists i. simpl. rewrite length_alter.
      split; [by eapply lookup_lt_Some | done].
    + intros Hr j th' Hlook. destruct (decide (i = j)) as [->|Hij].
      * simpl in Hlook. rewrite list_lookup_alter_eq, H in Hlook.
        by injection Hlook as <-.
      * simpl in Hlook. rewrite list_lookup_alter_ne in Hlook by done.
        by eapply Hlive.
  - (* worker: parks, so every queue is empty *)
    split; [|split; [|exact Hlive]]; simpl.
    + apply NoDup_app. split; [exact Hnd|].
      split; [|apply NoDup_singleton].
      intros j Hj Hji. apply list_elem_of_singleton in Hji as ->. done.
    + intros Hq _. exfalso. unfold wait_predicate in H2.
      destruct (m_running (pool w)); simpl in H2; [|discriminate H2].
      apply negb_false_iff in H2. congruence.
  - apply (wakeful_put_pc _ i th); [done | done | exact Hw].
  - apply (wakeful_put_pc _ i th); [done | done | exact Hw].
  - apply (wakeful_put_pc _ i th); [done | done | exact Hw].
  - (* spurious wake-up *)
    split; [|split; [|exact Hlive]]; simpl.
    + by apply NoDup_filter.
    + intros _ _. exists i. simpl. split.
      * destruct (Hpark i H) as (th & Hth & _). by eapply lookup_lt_Some.
      * intros Hin. by apply list_elem_of_filter in Hin as [? _].
Qed.

Lemma ThreadPool_wakeful arg hw w0 :
  ThreadPool arg hw = Some w0 -> wakeful (pool w0).
Proof.
  intros Hctor. pose proof (ThreadPool_workers _ _ _ Hctor) as Hws.
  unfold ThreadPool in Hctor.
  destruct (Init _ _ new_impl) as [s|] eqn:HInit; [|discriminate].
  injection Hctor as <-. simpl in *.
  pose proof (Init_jobs _ _ _ HInit) as Hm.
  assert (m_cvSleepCtrl s = []) as Hc.
  { rewrite Init_unfold in HInit. case_match; [|discriminate].
    by injection HInit as <-. }
  split; [rewrite Hc; apply NoDup_nil_2|]. split.
  - rewrite Hm. discriminate.
  - intros _ i th Hth. rewrite Hws in Hth.
    apply lookup_replicate in Hth as [-> _]. discriminate.
Qed.

(** Property X7.  While [m_running] is true, a job never sits in a queue with
    every worker asleep: in every state of a pool with at least one worker in
    which some queue is non-empty, some worker is not parked on the condition
    variable and is at the loop test, on its way into the locked block, or
    busy with a job, so that it reaches the scan by its own steps. *)
Theorem queued_job_has_awake_worker arg hw (w0 : world) (sched : list action)
  (w : world) (p : Priority) (q : job_queue) :
  ThreadPool arg hw = Some w0 ->
  run sched w0 = Some w ->
  (1 <= requested arg hw)%N ->
  m_running (pool w) = true ->
  (p, q) ∈ m_jobsByPriority (pool w) ->
  q <> [] ->
  exists i th,
    m_workers (pool w) !! i = Some th /\
    (i ∉ m_cvSleepCtrl (pool w)) /\
    (pc th = AtLoopTest \/ pc th = InWait \/ exists job, pc th = HoldsJob job).
Proof.
  intros Hctor Hrun Hone Hr Hin Hq.
  pose proof (reachable_sound _ _ _ _ _ Hctor Hrun) as (_ & _ & Hnt).
  pose proof (reachable_workers_length _ _ _ _ _ Hctor Hrun) as Hlen.
  assert (wakeful (pool w)) as (_ & Hjob & Hlive).
  { apply (run_invariant (fun w => wakeful (pool w))) with sched w0;
      [| by eapply ThreadPool_sound | by eapply ThreadPool_wakeful | done].
    intros a w1 w2 (Hc & _) Hw Hmv. by eapply moves_wakeful. }
  destruct Hjob as (i & Hi & Hawake).
  - apply allQueuesEmpty_false. eauto.
  - intros Hnil. rewrite Hnil in Hlen. simpl in Hlen. lia.
  - destruct (lookup_lt_is_Some_2 _ _ Hi) as [th Hth].
    exists i, th. split; [exact Hth|]. split; [exact Hawake|].
    pose proof (Hlive Hr i th Hth) as Hnf.
    destruct (pc th) as [| |job| |e] eqn:Hpc; eauto.
    + done.
    + exfalso. eapply Hnt; eauto.
Qed.

Lemma queued_job_has_awake_worker_witness :
  exists w0 w i th,
    ThreadPool (Some 2%N) (host_with 4) = Some w0 /\
    run [StepWorker 0; StepWorker 0; StepWorker 1; StepWorker 1;
         CallSchedule High (fun _ => Returned 1) 1] w0 = Some w /\
    m_cvSleepCtrl (pool w) = [0%nat] /\
    m_workers (pool w) !! i = Some th /\
    i ∉ m_cvSleepCtrl (pool w).
Proof.
  eexists _, _.
  match goal with
  | |- exists i th, ThreadPool _ _ = Some ?a /\ run ?s1 _ = Some ?b /\ _ =>
      assert (ThreadPool (Some 2%N) (host_with 4) = Some a) as H0
        by (vm_compute; reflexivity);
      assert (run s1 a = Some b) as H1 by (vm_compute; reflexivity);
      destruct (queued_job_has_awake_worker (Some 2%N) (host_with 4) a s1 b High
                  [Some (RunPackagedTask 0 (fun _ => Returned 1))] H0 H1)
        as (i & th & Hth & Hawake & _);
      [ vm_compute; discriminate | reflexivity
      | simpl; unfold three_queues; rewrite !elem_of_cons; auto
      | discriminate | ];
      exists i, th; split; [exact H0|]; split; [exact H1|];
      split; [reflexivity|]; split; [exact Hth | exact Hawake]
  end.
Defined.

(** ** A new job and the jobs already queued *)

(** Property X8.  A job added by [AddJob] does not overtake: if a job is queued
    at the same or a higher priority, the next scan takes the same job as it
    would have taken without the addition; if every queue of the same or a
    higher priority is empty, the next scan takes the new job and leaves the
    map as it was before the addition. *)
Theorem new_job_does_not_overtake (qc qh qn : job_queue) (p : Priority)
  (job : function_void) :
  ((exists p', Priority_val p <= Priority_val p' /\
               queue_of (three_queues qc qh qn) p' <> []) ->
   (scan (map_at (three_queues qc qh qn) p (fun q => q ++ [job]))).1
   = (scan (three_queues qc qh qn)).1)
  /\
  ((forall p', Priority_val p <= Priority_val p' ->
               queue_of (three_queues qc qh qn) p' = []) ->
   scan (map_at (three_queues qc qh qn) p (fun q => q ++ [job]))
   = (job, three_queues qc qh qn)).
Proof.
  split.
  - intros (p' & Hle & Hne). rewrite map_at_three_queues.
    destruct p, p'; simpl in Hle; try lia;
      destruct qc, qh, qn; simpl in *; done.
  - intros Hempty. rewrite map_at_three_queues.
    pose proof (Hempty Critical) as Hc. pose proof (Hempty High) as Hh.
    pose proof (Hempty Normal) as Hn. simpl in Hc, Hh, Hn.
    destruct p; simpl in Hc, Hh, Hn.
    + rewrite Hc, Hh, Hn by lia. reflexivity.
    + rewrite Hc, Hh by lia. reflexivity.
    + rewrite Hc by lia. reflexivity.
Qed.

Lemma new_job_does_not_overtake_witness :
  (scan (map_at (three_queues [] [Some (RunPackagedTask 0 (fun _ => Returned 1))] [])
           High (fun q => q ++ [Some (RunPackagedTask 1 (fun _ => Returned 2))]))).1
  = Some (RunPackagedTask 0 (fun _ => Returned 1)) /\
  scan (map_at (three_queues [] [] [Some (RunPackagedTask 0 (fun _ => Returned 1))])
          High (fun q => q ++ [Some (RunPackagedTask 1 (fun _ => Returned 2))]))
  = (Some (RunPackagedTask 1 (fun _ => Returned 2)),
     three_queues [] [] [Some (RunPackagedTask 0 (fun _ => Returned 1))]).
Proof.
  split.
  - rewrite (proj1 (new_job_does_not_overtake _ _ _ _ _)); [reflexivity|].
    exists High. split; [simpl; lia | discriminate].
  - apply (proj2 (new_job_does_not_overtake _ _ _ _ _)).
    intros p' Hle. destruct p'; simpl in Hle; [lia | done | done].
Defined.

(** ** [Shutdown] can always run to its return *)









(** ** The futures handed out by [Schedule] *)

Lemma moves_tasks_grow (a : action) (w w' : world) :
  moves a w w' -> pending_once w ->
  (length (shared_states w) <= length (shared_states w'))%nat.
Proof.
  intros Hmv Hp.
  destruct (moves_pending_change a w w' Hmv Hp)
    as [[_ ->] | [[_ ->] | (t0 & r & _ & _ & ->)]].
  - done.
  - rewrite length_app. simpl. lia.
  - by rewrite length_insert.
Qed.

(** Property X10.  Every call of [Schedule] returns a future of its own: the
    task it creates is new (no result is recorded for it before the call),
    and whatever the pool does afterwards a later call returns a different
    future.  Nothing is said of whether the result is ready when the call
    returns: the job is in its queue before the future is handed out, and a
    worker may have run it by then. *)
Theorem Schedule_returns_new_future arg hw (w0 : world) (sched : list action)
  (w : world) (priority : Priority) (f : bound_call) (pick : nat) (t : nat)
  (w1 : world) (later : list action) (w2 : world)
  (priority' : Priority) (f' : bound_call) (pick' : nat) (t' : nat)
  (w3 : world) :
  ThreadPool arg hw = Some w0 ->
  run sched w0 = Some w ->
  Schedule priority f pick w = Some (t, w1) ->
  run later w1 = Some w2 ->
  Schedule priority' f' pick' w2 = Some (t', w3) ->
  future_result w t = None /\
  (t < t')%nat.
Proof.
  intros Hctor Hrun Hsched Hlater Hsched'.
  pose proof (reachable_sound _ _ _ _ _ Hctor Hrun) as Hs.
  assert (step (CallSchedule priority f pick) w = Some w1) as Hstep
    by (simpl; by rewrite Hsched).
  pose proof (step_sound _ _ _ Hstep Hs) as Hs1.
  assert (sound w2) as Hs2 by (by eapply run_sound).
  destruct (Schedule_free priority f pick w) as (v1 & Hv1 & _);
    [apply Hs|].
  rewrite Hsched in Hv1. injection Hv1 as -> <-.
  destruct (Schedule_free priority' f' pick' w2) as (v3 & Hv3 & _);
    [apply Hs2|].
  rewrite Hsched' in Hv3. injection Hv3 as -> <-.
  split.
  - unfold future_result.
    by rewrite (lookup_ge_None_2 (shared_states w) (length (shared_states w))).
  - assert (length (shared_states w1) = S (length (shared_states w))) as Hl1.
    { unfold Schedule, bind, gets, modify in Hsched. simpl in Hsched.
      rewrite AddJob_free in Hsched by (simpl; apply Hs). simpl in Hsched.
      injection Hsched as <-. simpl. rewrite length_app. simpl. lia. }
    assert (length (shared_states w1) <= length (shared_states w2))%nat
      as Hl2.
    { apply (run_preorder
               (fun v v' => (length (shared_states v)
                             <= length (shared_states v'))%nat)) with later;
        [done | by intros ??? ??; lia | | exact Hs1 | exact Hlater].
      intros a v v' (_ & Hp & _) Hmv. by eapply moves_tasks_grow. }
    lia.
Qed.

Lemma Schedule_returns_new_future_witness :
  exists w0 w w1 w2 w3,
    ThreadPool (Some 1%N) (host_with 4) = Some w0 /\
    run [StepWorker 0] w0 = Some w /\
    Schedule Normal (fun _ => Returned 1) 0 w = Some (0%nat, w1) /\
    run [StepWorker 0; StepWorker 0] w1 = Some w2 /\
    Schedule Critical (fun _ => Returned 2) 0 w2 = Some (1%nat, w3) /\
    (0 < 1)%nat.
Proof.
  eexists _, _, _, _, _.
  match goal with
  | |- ThreadPool _ _ = Some ?a /\ run ?s1 _ = Some ?b /\
       Schedule _ _ _ _ = Some (_, ?c) /\ run ?s2 _ = Some ?d /\
       Schedule _ _ _ _ = Some (_, ?e) /\ _ =>
      assert (ThreadPool (Some 1%N) (host_with 4) = Some a) as H0
        by (vm_compute; reflexivity);
      assert (run s1 a = Some b) as H1 by (vm_compute; reflexivity);
      assert (Schedule Normal (fun _ => Returned 1) 0 b = Some (0%nat, c))
        as H2 by (vm_compute; reflexivity);
      assert (run s2 c = Some d) as H3 by (vm_compute; reflexivity);
      assert (Schedule Critical (fun _ => Returned 2) 0 d = Some (1%nat, e))
        as H4 by (vm_compute; reflexivity);
      destruct (Schedule_returns_new_future (Some 1%N) (host_with 4) a s1 b
                  Normal (fun _ => Returned 1) 0 0 c s2 d
                  Critical (fun _ => Returned 2) 0 1 e H0 H1 H2 H3 H4)
        as (_ & Hlt);
      split; [exact H0|]; split; [exact H1|]; split; [exact H2|];
      split; [exact H3|]; split; [exact H4 | exact Hlt]
  end.
Defined.

(** ** Spurious wake-ups *)

Lemma run_wakeful arg hw w0 sched w :
  ThreadPool arg hw = Some w0 -> run sched w0 = Some w -> wakeful (pool w).
Proof.
  intros Hctor Hrun.
  apply (run_invariant (fun w => wakeful (pool w))) with sched w0;
    [| by eapply ThreadPool_sound | by eapply ThreadPool_wakeful | done].
  intros a w1 w2 (Hc & _) Hw Hmv. by eapply moves_wakeful.
Qed.

Lemma filter_out_one (l : list nat) i :
  NoDup l -> i ∈ l -> filter (fun j => j ≠ i) l ++ [i] ≡ₚ l.
Proof.
  induction l as [|x l IH]; intros Hnd Hin; [by inversion Hin|].
  apply NoDup_cons in Hnd as [Hx Hnd].
  destruct (decide (x = i)) as [->|Hne].
  - rewrite filter_cons_False by (intros ?; done).
    assert (filter (fun j => j ≠ i) l = l) as ->.
    { clear IH Hnd Hin. induction l as [|y l IH]; [done|].
      apply not_elem_of_cons in Hx as [Hy Hx].
      rewrite filter_cons_True by done. by rewrite IH. }
    by rewrite <- Permutation_cons_append.
  - rewrite filter_cons_True by done. simpl. f_equiv. apply IH; [done|].
    apply elem_of_cons in Hin as [?|?]; [congruence | done].
Qed.

(** Property X11.  A spurious wake-up does not let a worker past the wait: when
    [m_running] is true and every queue is empty, a parked worker that wakes
    up spuriously evaluates the predicate and parks again; flag, queues,
    workers and results are as before, and the same workers are parked. *)
Theorem spurious_wakeup_parks_again arg hw (w0 : world) (sched : list action)
  (w : world) (i : nat) :
  ThreadPool arg hw = Some w0 ->
  run sched w0 = Some w ->
  i ∈ m_cvSleepCtrl (pool w) ->
  wait_predicate (pool w) = false ->
  exists w',
    run [SpuriousWakeup i; StepWorker i] w = Some w' /\
    m_running (pool w') = m_running (pool w) /\
    m_jobsByPriority (pool w') = m_jobsByPriority (pool w) /\
    m_workers (pool w') = m_workers (pool w) /\
    shared_states w' = shared_states w /\
    m_cvSleepCtrl (pool w') ≡ₚ m_cvSleepCtrl (pool w).
Proof.
  intros Hctor Hrun Hin Hpred.
  pose proof (reachable_sound _ _ _ _ _ Hctor Hrun) as ((Hg & Hpark & _) & _).
  pose proof (run_wakeful _ _ _ _ _ Hctor Hrun) as (Hnd & _).
  destruct (Hpark i Hin) as (th & Hth & Hpc).
  assert (step (SpuriousWakeup i) w =
          Some (mk_world
                  (set_waiters (filter (fun j => j ≠ i) (m_cvSleepCtrl (pool w)))
                     (pool w))
                  (shared_states w) (in_shutdown w) (events w))) as Hstep1.
  { simpl. unfold_ops. by rewrite (bool_decide_eq_true_2 _ Hin). }
  eexists. split.
  - cbn [run]. rewrite Hstep1. cbn [run step].
    rewrite (worker_step_park _ i th); [reflexivity | done | done | done | | done].
    simpl. intros Hi. by apply list_elem_of_filter in Hi as [? _].
  - simpl. split; [done|]. split; [done|]. split; [done|]. split; [done|].
    by apply filter_out_one.
Qed.

Lemma spurious_wakeup_parks_again_witness :
  exists w0 w w',
    ThreadPool (Some 2%N) (host_with 4) = Some w0 /\
    run [StepWorker 0; StepWorker 0; StepWorker 1; StepWorker 1] w0
      = Some w /\
    run [SpuriousWakeup 0; StepWorker 0] w = Some w' /\
    m_cvSleepCtrl (pool w) = [0%nat; 1%nat] /\
    m_cvSleepCtrl (pool w') = [1%nat; 0%nat] /\
    m_workers (pool w') = m_workers (pool w).
Proof.
  eexists _, _.
  match goal with
  | |- exists w', ThreadPool _ _ = Some ?a /\ run ?s1 _ = Some ?b /\ _ =>
      assert (ThreadPool (Some 2%N) (host_with 4) = Some a) as H0
        by (vm_compute; reflexivity);
      assert (run s1 a = Some b) as H1 by (vm_compute; reflexivity);
      destruct (spurious_wakeup_parks_again (Some 2%N) (host_with 4) a s1 b 0 H0 H1)
        as (w' & Hrun & _ & _ & Hws & _);
      [ simpl; rewrite !elem_of_cons; auto | reflexivity | ];
      exists w'; split; [exact H0|]; split; [exact H1|];
      split; [exact Hrun|]; split; [reflexivity|]; split; [|exact Hws];
      vm_compute in Hrun; by injection Hrun as <-
  end.
Defined.

(** ** What [Shutdown] leaves behind *)

Lemma held_tasks_all_finished (ws : list thread) :
  (forall i th, ws !! i = Some th -> pc th = Finished) -> held_tasks ws = [].
Proof.
  induction ws as [|th ws IH]; intros Hfin; [done|].
  change (held_tasks (th :: ws)) with (held_by (pc th) ++ held_tasks ws).
  rewrite (Hfin O th eq_refl), IH; [done|].
  intros i th' Hth'. by apply (Hfin (S i)).
Qed.

(** Property X12.  When a [Shutdown] call returns, no job is in the hands of a
    worker: every job that a worker had taken has been run to its end and has
    its result, and every task without a result is one whose job is still in
    a queue. *)
Theorem Shutdown_returns_with_no_job_in_flight arg hw (w0 : world)
  (sched : list action) (w : world) :
  ThreadPool arg hw = Some w0 ->
  run (sched ++ [StepShutdown]) w0 = Some w ->
  in_shutdown w = NotInShutdown ->
  held_tasks (m_workers (pool w)) = [] /\
  forall t, (t < length (shared_states w))%nat ->
    (exists o, future_result w t = Some o) \/
    (future_result w t = None /\
     t ∈ queued_tasks (m_jobsByPriority (pool w))).
Proof.
  intros Hctor Hrun Hret.
  assert (all_finished (pool w)) as Hfin.
  { apply run_app in Hrun as (w1 & Hrun1 & Hlast). cbn [run] in Hlast.
    destruct (step StepShutdown w1) as [w2|] eqn:Hstep; [|discriminate Hlast].
    injection Hlast as ->.
    pose proof (reachable_sound _ _ _ _ _ Hctor Hrun1) as (Hc1 & _).
    destruct (Shutdown_return_all_joined w1 w Hc1 Hstep Hret)
      as (_ & _ & _ & Hall).
    intros i th Hth. by destruct (Hall i th Hth). }
  pose proof (held_tasks_all_finished _ Hfin) as Hheld.
  split; [exact Hheld|]. intros t Ht.
  destruct (lookup_lt_is_Some_2 _ _ Ht) as [[o|] Hlook].
  - left. exists o. unfold future_result. by rewrite Hlook.
  - right. split; [unfold future_result; by rewrite Hlook|].
    assert (t ∈ pending_tasks (pool w)) as Hin
      by (by eapply reachable_accounted).
    unfold pending_tasks in Hin. by rewrite Hheld, app_nil_r in Hin.
Qed.

Lemma Shutdown_returns_with_no_job_in_flight_witness :
  exists w0 w,
    ThreadPool (Some 1%N) (host_with 4) = Some w0 /\
    run ([CallSchedule Normal (fun _ => Returned 1) 0;
          CallSchedule Normal (fun _ => Returned 2) 0;
          StepWorker 0; StepWorker 0; StepShutdown; StepShutdown;
          StepWorker 0; StepWorker 0; StepShutdown]
         ++ [StepShutdown]) w0 = Some w /\
    held_tasks (m_workers (pool w)) = [] /\
    future_result w 0 = Some (Returned 1) /\
    queued_tasks (m_jobsByPriority (pool w)) = [1%nat].
Proof.
  eexists _, _.
  match goal with
  | |- ThreadPool _ _ = Some ?a /\ run (?s1 ++ _) _ = Some ?b /\ _ =>
      assert (ThreadPool (Some 1%N) (host_with 4) = Some a) as H0
        by (vm_compute; reflexivity);
      assert (run (s1 ++ [StepShutdown]) a = Some b) as H1
        by (vm_compute; reflexivity);
      destruct (Shutdown_returns_with_no_job_in_flight (Some 1%N) (host_with 4)
                  a s1 b H0 H1 eq_refl) as (Hheld & _);
      split; [exact H0|]; split; [exact H1|];
      split; [exact Hheld|]; split; reflexivity
  end.
Defined.

(** ** A worker left alone with the queues *)

Lemma step_loop_test_running (w : world) i th :
  m_workers (pool w) !! i = Some th -> pc th = AtLoopTest ->
  m_running (pool w) = true ->
  step (StepWorker i) w =
  Some (mk_world (put_pc i InWait (pool w)) (shared_states w)
          (in_shutdown w) (events w)).
Proof.
  intros Hth Hpc Hr. simpl. unfold_ops. rewrite Hth, Hpc. simpl.
  by rewrite Hr.
Qed.

Lemma step_holds_task (w : world) i th t f :
  shared_states w !! t = Some None ->
  m_workers (pool w) !! i = Some th ->
  pc th = HoldsJob (Some (RunPackagedTask t f)) ->
  step (StepWorker i) w =
  Some (mk_world (put_pc i AtLoopTest (pool w))
          (<[t := Some (f tt)]> (shared_states w)) (in_shutdown w) (events w)).
Proof.
  intros Hfresh Hth Hpc. simpl. unfold_ops. rewrite Hth, Hpc. simpl.
  by rewrite Hfresh.
Qed.

Lemma step_holds_nothing (w : world) i th :
  m_workers (pool w) !! i = Some th ->
  pc th = HoldsJob None ->
  step (StepWorker i) w =
  Some (mk_world (put_pc i AtLoopTest (pool w)) (shared_states w)
          (in_shutdown w) (events w)).
Proof. intros Hth Hpc. simpl. unfold_ops. by rewrite Hth, Hpc. Qed.

(** One turn of the loop on a pool with a queued job: the worker is back at
    the loop test, the scan has popped its job, and a job made by [Schedule]
    has delivered the outcome of its callable. *)
Lemma loop_turn_runs_next_job (w : world) i th :
  sound w -> m_running (pool w) = true ->
  m_workers (pool w) !! i = Some th -> pc th = AtLoopTest ->
  allQueuesEmpty (m_jobsByPriority (pool w)) = false ->
  exists w',
    run (loop_turn i) w = Some w' /\
    m_running (pool w') = true /\
    m_workers (pool w') !! i
      = Some {| joinable := joinable th; pc := AtLoopTest |} /\
    m_jobsByPriority (pool w') = (scan (m_jobsByPriority (pool w))).2 /\
    forall t f,
      (scan (m_jobsByPriority (pool w))).1 = Some (RunPackagedTask t f) ->
      future_result w' t = Some (f tt).
Proof.
  intros Hs Hr Hth Hpc Hq.
  pose proof Hs as ((Hg & Hpark & _) & _).
  assert (i ∉ m_cvSleepCtrl (pool w)) as Hawake.
  { eapply not_parked_unless_waiting; eauto. congruence. }
  pose proof (step_loop_test_running w i th Hth Hpc Hr) as Hstep1.
  pose proof (step_sound _ _ _ Hstep1 Hs) as Hs1.
  assert (exists w2,
            run [StepWorker i; StepWorker i] w = Some w2 /\
            sound w2 /\
            m_running (pool w2) = true /\
            m_workers (pool w2) !! i
              = Some {| joinable := joinable th;
                        pc := HoldsJob (scan (m_jobsByPriority (pool w))).1 |}
            /\
            m_jobsByPriority (pool w2) = (scan (m_jobsByPriority (pool w))).2)
    as (w2 & Hrun2 & Hs2 & Hr2 & Hth2 & Hm2).
  { assert (step (StepWorker i)
              (mk_world (put_pc i InWait (pool w)) (shared_states w)
                 (in_shutdown w) (events w)) = Some
              (mk_world
                 (put_pc i (HoldsJob (scan (m_jobsByPriority (pool w))).1)
                    (set_jobs (scan (m_jobsByPriority (pool w))).2
                       (put_pc i InWait (pool w))))
                 (shared_states w) (in_shutdown w)
                 (events w ++ [EvLock (Worker i); EvUnlock (Worker i)])))
      as Hstep2.
    { simpl step.
      rewrite (worker_step_take _ i {| joinable := joinable th; pc := InWait |});
        [reflexivity | exact Hg | by apply put_pc_lookup | reflexivity
        | exact Hawake |].
      unfold wait_predicate. simpl. by rewrite Hr, Hq. }
    eexists. split; [cbn [run]; rewrite Hstep1; cbn [run]; by rewrite Hstep2|].
    split; [by eapply step_sound|]. split; [exact Hr|]. split; [|reflexivity].
    simpl. rewrite list_lookup_alter_eq, list_lookup_alter_eq, Hth.
    reflexivity. }
  assert (exists sh,
            step (StepWorker i) w2 =
            Some (mk_world (put_pc i AtLoopTest (pool w2)) sh (in_shutdown w2)
                    (events w2)) /\
            forall t f,
              (scan (m_jobsByPriority (pool w))).1
              = Some (RunPackagedTask t f) ->
              sh !! t = Some (Some (f tt))) as (sh & Hstep3 & Hres).
  { destruct Hs2 as (_ & Hp2 & _).
    destruct ((scan (m_jobsByPriority (pool w))).1) as [[t f]|] eqn:Hjob.
    - pose proof (holder_task_fresh w2 i _ t f Hp2 Hth2 eq_refl) as Hfresh.
      exists (<[t := Some (f tt)]> (shared_states w2)). split.
      + by apply (step_holds_task w2 i _ t f Hfresh Hth2).
      + intros t' f' [= <- <-].
        apply list_lookup_insert_eq. by eapply lookup_lt_Some.
    - exists (shared_states w2). split; [|discriminate].
      by apply (step_holds_nothing w2 i _ Hth2). }
  eexists. split.
  { unfold loop_turn.
    change [StepWorker i; StepWorker i; StepWorker i]
      with ([StepWorker i; StepWorker i] ++ [StepWorker i]).
    apply run_app. exists w2. split; [exact Hrun2|].
    cbn [run]. by rewrite Hstep3. }
  split; [exact Hr2|]. split; [|split; [exact Hm2|]].
  - by apply (put_pc_lookup i AtLoopTest (pool w2) _ Hth2).
  - intros t f Hjob. unfold future_result. simpl.
    by rewrite (Hres t f Hjob).
Qed.

Lemma allQueuesEmpty_three_queues qc qh qn :
  allQueuesEmpty (three_queues qc qh qn) = false <-> qc ++ qh ++ qn <> [].
Proof. destruct qc, qh, qn; simpl; split; done. Qed.

Lemma scan_three_queues_next qc qh qn job rest :
  qc ++ qh ++ qn = job :: rest ->
  exists qc' qh' qn',
    scan (three_queues qc qh qn) = (job, three_queues qc' qh' qn') /\
    qc' ++ qh' ++ qn' = rest /\
    forall n,
      three_queues (drop (S n) qc) (drop (S n - length qc) qh)
        (drop (S n - length qc - length qh) qn)
      = three_queues (drop n qc') (drop (n - length qc') qh')
          (drop (n - length qc' - length qh') qn').
Proof.
  intros Hjobs. rewrite scan_three_queues.
  destruct qc as [|jc rc]; [destruct qh as [|jh rh];
                            [destruct qn as [|jn rn]|]|];
    simpl in Hjobs; try discriminate Hjobs;
    injection Hjobs as <- <-; eexists _, _, _;
    (split; [reflexivity|]); (split; [reflexivity|]); intros n; simpl;
    rewrite ?drop_nil, ?Nat.sub_0_r; reflexivity.
Qed.

(** Turns in a row, stated for a sound world. *)
Lemma loop_turns_run_in_order (n : nat) :
  forall (w : world) i th qc qh qn,
    sound w -> m_running (pool w) = true ->
    m_workers (pool w) !! i = Some th -> pc th = AtLoopTest ->
    m_jobsByPriority (pool w) = three_queues qc qh qn ->
    (n <= length (qc ++ qh ++ qn))%nat ->
    exists w',
      run (loop_turns n i) w = Some w' /\
      m_workers (pool w') !! i
        = Some {| joinable := joinable th; pc := AtLoopTest |} /\
      m_jobsByPriority (pool w')
        = three_queues (drop n qc) (drop (n - length qc) qh)
            (drop (n - length qc - length qh) qn) /\
      forall t f,
        Some (RunPackagedTask t f) ∈ take n (qc ++ qh ++ qn) ->
        future_result w' t = Some (f tt).
Proof.
  induction n as [|n IH]; intros w i th qc qh qn Hs Hr Hth Hpc Hm Hn.
  - exists w. split; [reflexivity|]. split; [by destruct th; simpl in *; subst|].
    split; [by rewrite Hm, !drop_0|]. simpl. intros t f Hin. inversion Hin.
  - destruct (qc ++ qh ++ qn) as [|job rest] eqn:Hjobs; [simpl in Hn; lia|].
    destruct (scan_three_queues_next qc qh qn job rest Hjobs)
      as (qc' & qh' & qn' & Hscan & Hrest & Hdrop).
    destruct (loop_turn_runs_next_job w i th Hs Hr Hth Hpc)
      as (w1 & Hrun1 & Hr1 & Hth1 & Hm1 & Hres1).
    { rewrite Hm. apply allQueuesEmpty_three_queues. by rewrite Hjobs. }
    rewrite Hm, Hscan in Hm1, Hres1. simpl in Hm1, Hres1.
    assert (sound w1) as Hs1 by (by eapply run_sound).
    destruct (IH w1 i {| joinable := joinable th; pc := AtLoopTest |}
                qc' qh' qn' Hs1 Hr1 Hth1 eq_refl Hm1)
      as (w' & Hrun & Hth' & Hm' & Hres); [rewrite Hrest; simpl in Hn; lia|].
    exists w'. split; [|split; [exact Hth'|split]].
    + cbn [loop_turns]. apply run_app. eauto.
    + by rewrite Hm', Hdrop.
    + intros t f Hin. simpl in Hin. apply elem_of_cons in Hin as [Heq|Hin].
      * assert (shared_states w1 !! t = Some (Some (f tt))) as Ht1.
        { specialize (Hres1 t f (eq_sym Heq)). unfold future_result in Hres1.
          destruct (shared_states w1 !! t) as [r|]; [by subst r | done]. }
        enough (shared_states w' !! t = Some (Some (f tt))) as Ht'
          by (unfold future_result; by rewrite Ht').
        revert Ht1.
        apply (run_preorder
                 (fun v v' => shared_states v !! t = Some (Some (f tt)) ->
                              shared_states v' !! t = Some (Some (f tt))))
          with (loop_turns n i); [done | by eauto | | exact Hs1 | exact Hrun].
        intros a v v' (_ & Hp & _) Hmv. by eapply moves_result_kept.
      * apply Hres. by rewrite Hrest.
Qed.

(** Property X13.  A worker that runs alone while [m_running] is true works the
    queues off in the order Critical queue, High queue, Normal queue, each
    from front to back: after [n] turns of its loop, started at the loop
    test, exactly the first [n] queued jobs have left the queues, and the
    future of each of them delivers the outcome of its callable. *)
Theorem worker_runs_jobs_in_order arg hw (w0 : world) (sched : list action)
  (w : world) (i : nat) (th : thread) (qc qh qn : job_queue) (n : nat) :
  ThreadPool arg hw = Some w0 ->
  run sched w0 = Some w ->
  m_running (pool w) = true ->
  m_workers (pool w) !! i = Some th ->
  pc th = AtLoopTest ->
  m_jobsByPriority (pool w) = three_queues qc qh qn ->
  (n <= length (qc ++ qh ++ qn))%nat ->
  exists w',
    run (loop_turns n i) w = Some w' /\
    m_workers (pool w') !! i
      = Some {| joinable := joinable th; pc := AtLoopTest |} /\
    m_jobsByPriority (pool w')
      = three_queues (drop n qc) (drop (n - length qc) qh)
          (drop (n - length qc - length qh) qn) /\
    forall t f,
      Some (RunPackagedTask t f) ∈ take n (qc ++ qh ++ qn) ->
      future_result w' t = Some (f tt).
Proof.
  intros Hctor Hrun Hr Hth Hpc Hm Hn.
  apply loop_turns_run_in_order; try done.
  by eapply reachable_sound.
Qed.

Lemma worker_runs_jobs_in_order_witness :
  exists w0 w w',
    ThreadPool (Some 1%N) (host_with 4) = Some w0 /\
    run [CallSchedule Normal (fun _ => Returned 1) 0;
         CallSchedule Critical (fun _ => Threw (user_exception "late")) 0;
         CallSchedule Normal (fun _ => Returned 3) 0] w0 = Some w /\
    run (loop_turns 2 0) w = Some w' /\
    future_result w' 1 = Some (Threw (user_exception "late")) /\
    future_result w' 0 = Some (Returned 1) /\
    future_result w' 2 = None.
Proof.
  eexists _, _.
  match goal with
  | |- exists w', ThreadPool _ _ = Some ?a /\ run ?s1 _ = Some ?b /\ _ =>
      assert (ThreadPool (Some 1%N) (host_with 4) = Some a) as H0
        by (vm_compute; reflexivity);
      assert (run s1 a = Some b) as H1 by (vm_compute; reflexivity);
      destruct (worker_runs_jobs_in_order (Some 1%N) (host_with 4) a s1 b 0
                  {| joinable := true; pc := AtLoopTest |}
                  [Some (RunPackagedTask 1
                           (fun _ => Threw (user_exception "late")))]
                  []
                  [Some (RunPackagedTask 0 (fun _ => Returned 1));
                   Some (RunPackagedTask 2 (fun _ => Returned 3))]
                  2 H0 H1)
        as (w' & Hrun & _ & _ & Hres);
      [ reflexivity | reflexivity | reflexivity | reflexivity
      | simpl; lia | ];
      exists w'; split; [exact H0|]; split; [exact H1|];
      split; [exact Hrun|];
      split; [apply (Hres 1%nat (fun _ => Threw (user_exception "late")));
              simpl; rewrite !elem_of_cons; auto|];
      split; [apply (Hres 0%nat (fun _ => Returned 1));
              simpl; rewrite !elem_of_cons; auto|];
      vm_compute in Hrun; by injection Hrun as <-
  end.
Defined.
